(** * SMBus over a Linux i2c character device: model and verification

    The Go package [smbus] talks to [/dev/i2c-<bus>] through three kinds of
    system calls: opening and closing the device file, raw reads and writes
    on it, and [ioctl].  This development embeds the package as Go
    computations over an explicit world (the state of the operating system
    together with the chronological trace of the calls the package issued),
    and proves the contracts of the transaction layer on that embedding.

    Conventions.
    - [uint8], [uint16], [uint32], [uintptr] and [int] values are [Z]; a
      conversion that can truncate ([byte(len(buf))]) has its wrap-around
      written out.
    - A Go [error] is [option error] ([None] is [nil]); a Go pointer is an
      [option] ([None] is [nil]) and dereferencing [nil] panics.
    - Memory handed to the kernel through [unsafe.Pointer] is the list of
      bytes of the object pointed to; what the kernel writes there is
      overlaid on it, so the object keeps its size.
    - The order in which [range] walks a map is chosen by the platform. *)

From stdpp Require Import base gmap list strings pretty.

Local Open Scope Z_scope.

(** ** Values shared by both source files *)

(** Go [error] values met in the package: an errno coming out of a raw
    system call, an error made with [errors.New] / [fmt.Errorf], and the
    path error of [os.OpenFile]. *)
Inductive error : Type :=
| Errno (e : Z)
| ErrorString (s : string)
| PathError (op path : string) (e : Z).

(** [*os.File]: the open file, known by its descriptor. *)
Record File : Type := { Fd : Z }.

(** [type i2cCmd struct { rw uint8; cmd uint8; len uint32; ptr unsafe.Pointer }];
    [ptr] is represented by the bytes of the object it points to. *)
Record i2cCmd : Type := { rw : Z; cmd : Z; len : Z; ptr : list Z }.

(** Third argument of [ioctl]: [uintptr(addr)] or [uintptr(unsafe.Pointer(&cmd))]. *)
Inductive IoctlArg : Type :=
| ArgInt (n : Z)
| ArgPtr (c : i2cCmd).

(** Constants, identical in both source files. *)
Definition i2cSlave : Z := 0x0703.
Definition i2cSlaveForce : Z := 0x0706.
Definition i2cFuncs : Z := 0x0705.
Definition i2cSMBus : Z := 0x0720.

Definition i2cSMBusWrite : Z := 0.
Definition i2cSMBusRead : Z := 1.

Definition i2cSMBusByteData : Z := 2.
Definition i2cSMBusWordData : Z := 3.
Definition i2cSMBusBlockData : Z := 5.
Definition i2cSMBusI2CBlockData : Z := 8.
Definition i2cSMBusBlockMax : Z := 32.

(** [os.O_RDWR] and the permission bits [0600] given to [os.OpenFile]. *)
Definition O_RDWR : Z := 2.
Definition perm0600 : Z := 384.

(** ** The world *)

(** One entry per call that left the process, with what came back; for an
    ioctl, [mem] is the object behind its argument after the call. *)
Inductive Event : Type :=
| EvOpen (path : string) (flag perm : Z) (res : File + error)
| EvIoctl (fd req : Z) (arg : IoctlArg) (e1 : Z) (mem : list Z)
| EvWrite (f : File) (buf : list Z) (n : Z) (err : option error)
| EvRead (f : File) (size : nat) (n : Z) (err : option error)
| EvClose (f : File) (err : option error).

(** The operating system and the Go runtime, as far as the package can
    observe them.  [sys_ioctl] returns the errno of [SYS_IOCTL] (0 on
    success) and the bytes the kernel stored through the pointer of the
    command; [file_Read] returns the bytes received; [map_range] is the
    order in which a [range] statement visits a map, which may depend on
    the state but leaves it alone. *)
Record Platform (S : Type) : Type := {
  os_OpenFile : string → Z → Z → S → (File + error) * S;
  sys_ioctl : Z → Z → IoctlArg → S → (Z * list Z) * S;
  file_Write : File → list Z → S → (Z * option error) * S;
  file_Read : File → nat → S → (list Z * Z * option error) * S;
  file_Close : File → S → option error * S;
  map_range : gmap Z Z → S → list (Z * Z);
  big_endian : bool
}.
Arguments os_OpenFile {S}.
Arguments sys_ioctl {S}.
Arguments file_Write {S}.
Arguments file_Read {S}.
Arguments file_Close {S}.
Arguments map_range {S}.
Arguments big_endian {S}.

Record World (S : Type) : Type := { kstate : S; trace : list Event }.
Arguments kstate {S}.
Arguments trace {S}.
Arguments Build_World {S}.

(** ** Go computations: a result or a panic, and the world afterwards *)

Inductive Outcome (A : Type) : Type :=
| Ok (a : A)
| Panic (msg : string).
Arguments Ok {A}.
Arguments Panic {A}.

Definition Go (S A : Type) : Type := World S → Outcome A * World S.

Definition ret {S A} (a : A) : Go S A := λ w, (Ok a, w).

Definition bind {S A B} (m : Go S A) (k : A → Go S B) : Go S B :=
  λ w, match m w with
       | (Ok a, w') => k a w'
       | (Panic msg, w') => (Panic msg, w')
       end.

Definition panic {S A} (msg : string) : Go S A := λ w, (Panic msg, w).

Declare Scope go_scope.
Delimit Scope go_scope with go.
Notation "'let*' x := m 'in' k" := (bind m (λ x, k))
  (at level 10, x name, m at level 100, k at level 200, only parsing) : go_scope.
Notation "'let*' ' pat := m 'in' k" := (bind m (λ x, match x with pat => k end))
  (at level 10, pat pattern, m at level 100, k at level 200, only parsing) : go_scope.
Local Open Scope go_scope.

(** A call that leaves the process: the platform answers, the world moves
    on and the call is appended to the trace. *)
Definition call {S A} (step : S → A * S) (ev : A → Event) : Go S A :=
  λ w, let '(r, s') := step (kstate w) in
       (Ok r, {| kstate := s'; trace := trace w ++ [ev r] |}).

(** A step of the runtime that issues no call. *)
Definition runtime {S A} (step : S → A) : Go S A :=
  λ w, (Ok (step (kstate w)), w).

(** [*p] for a pointer [p]. *)
Definition deref {S A} (p : option A) : Go S A :=
  match p with
  | Some a => ret a
  | None => panic "invalid memory address or nil pointer dereference"
  end.

(** ** Slices and memory *)

(** [copy(dst, src)]: the first [min(len(dst), len(src))] elements of [dst]
    are replaced, [dst] keeps its length.  The same function describes what
    a store of the kernel through a pointer does to the object behind it. *)
Definition copy (dst src : list Z) : list Z :=
  take (length dst) (src ++ drop (length src) dst).

(** [make([]byte, n, c)]. *)
Definition make {S} (n c : nat) : Go S (list Z) :=
  if decide (n ≤ c)%nat then ret (replicate n 0)
  else panic "makeslice: cap out of range".

(** [s[i] = x]. *)
Definition index_set {S} (s : list Z) (i : nat) (x : Z) : Go S (list Z) :=
  if decide (i < length s)%nat then ret (<[i:=x]> s)
  else panic "index out of range".

(** [s[lo:hi]]; no slice of the package is ever grown, so its capacity is
    not tracked and the upper bound is checked against its length. *)
Definition slice {S} (s : list Z) (lo hi : nat) : Go S (list Z) :=
  if decide (lo ≤ hi ≤ length s)%nat then ret (take (hi - lo) (drop lo s))
  else panic "slice bounds out of range".

(** [byte(n)] for an [int] [n]. *)
Definition byte_of_int (n : Z) : Z := n mod 256.

(** A [uint16] in memory, in the byte order of the platform. *)
Definition u16_bytes (be : bool) (v : Z) : list Z :=
  if be then [v / 256 mod 256; v mod 256] else [v mod 256; v / 256 mod 256].

Definition bytes_u16 (be : bool) (m : list Z) : Z :=
  match m with
  | [b0; b1] => if be then b0 * 256 + b1 else b0 + b1 * 256
  | _ => 0
  end.

(** A [uint8] in memory. *)
Definition bytes_u8 (m : list Z) : Z := default 0 (m !! 0%nat).

(** ** Calls shared by both source files *)

(** The object behind the argument of an ioctl, after the kernel stored
    [wb] through it. *)
Definition mem_after (arg : IoctlArg) (wb : list Z) : list Z :=
  match arg with
  | ArgInt _ => []
  | ArgPtr c => copy (ptr c) wb
  end.

(** [if e1 != 0 { err = e1 }]. *)
Definition errno_error (e1 : Z) : option error :=
  if decide (e1 ≠ 0) then Some (Errno e1) else None.

Section Syscalls.
Context {S : Type} (P : Platform S).

(** [func ioctl(fd, cmd, arg uintptr) (err error)]: the errno of
    [SYS_IOCTL] becomes the error when it is not 0.  The second component
    is the memory behind [arg] after the call. *)
Definition ioctl (fd req : Z) (arg : IoctlArg) : Go S (option error * list Z) :=
  let* '(e1, wb) := call (sys_ioctl P fd req arg)
                         (λ r, EvIoctl fd req arg r.1 (mem_after arg r.2)) in
  ret (errno_error e1, mem_after arg wb).

(** [fmt.Sprintf("/dev/i2c-%d", bus)]. *)
Definition dev_path (bus : Z) : string := "/dev/i2c-" +:+ pretty bus.

(** [os.OpenFile(fmt.Sprintf("/dev/i2c-%d", bus), os.O_RDWR, 0600)]. *)
Definition OpenFile_dev (bus : Z) : Go S (File + error) :=
  call (os_OpenFile P (dev_path bus) O_RDWR perm0600)
       (EvOpen (dev_path bus) O_RDWR perm0600).

(** [f.Write(buf)], [f.Read(p)] and [f.Close()] of [*os.File]. *)
Definition File_Write (f : File) (buf : list Z) : Go S (Z * option error) :=
  call (file_Write P f buf) (λ r, EvWrite f buf r.1 r.2).

Definition File_Read (f : File) (p : list Z) : Go S (list Z * Z * option error) :=
  let* '(got, n, err) := call (file_Read P f (length p))
                              (λ r, EvRead f (length p) r.1.2 r.2) in
  ret (copy p got, n, err).

Definition File_Close (f : File) : Go S (option error) :=
  call (file_Close P f) (EvClose f).

(** The pairs that [for k, v := range m] visits, in order. *)
Definition range_map (m : gmap Z Z) : Go S (list (Z * Z)) :=
  runtime (map_range P m).

End Syscalls.

(** ** The package with options (the file that declares [Options]) *)

Module SMBus.

(** [var errSMBusBlockDataMax = errors.New("smbus: buffer slice too big")]. *)
Definition errSMBusBlockDataMax : error := ErrorString "smbus: buffer slice too big".

(** [type Options struct { Force bool; BackupRestoreRegs []uint8 }]; a nil
    slice is [None]. *)
Record Options : Type := { Force : bool; BackupRestoreRegs : option (list Z) }.

(** [type Conn struct { f *os.File; force bool; backupRegs map[uint8]uint8;
    backupaddr uint8 }]. *)
Record Conn : Type := {
  f : File;
  force : bool;
  backupRegs : gmap Z Z;
  backupaddr : Z
}.

Section Package.
Context {S : Type} (P : Platform S).

(** [func (c *Conn) addr(addr uint8) error]. *)
Definition addr (c : option Conn) (a : Z) : Go S (option error) :=
  let* cv := deref c in
  if force cv then
    let* '(err, _) := ioctl P (Fd (f cv)) i2cSlaveForce (ArgInt a) in ret err
  else
    let* '(err, _) := ioctl P (Fd (f cv)) i2cSlave (ArgInt a) in ret err.

(** [func (c *Conn) SetAddr(addr uint8) error]. *)
Definition SetAddr (c : option Conn) (a : Z) : Go S (option error) :=
  addr c a.

(** [func OpenFileWithOptions(bus int, opts *Options) ( *Conn, error)]. *)
Definition OpenFileWithOptions (bus : Z) (opts : option Options)
  : Go S (option Conn * option error) :=
  match opts with
  | None => ret (None, Some (ErrorString "opts is nil"))
  | Some o =>
    match BackupRestoreRegs o with
    | Some (_ :: _) =>
      ret (None, Some (ErrorString
        "option BackupRestoreRegs is not supported with OpenFile()"))
    | _ =>
      let* r := OpenFile_dev P bus in
      match r with
      | inr err => ret (None, Some err)
      | inl file =>
        ret (Some {| f := file; force := Force o;
                     backupRegs := ∅; backupaddr := 0 |}, None)
      end
    end
  end.

(** [func OpenFile(bus int) ( *Conn, error)]. *)
Definition OpenFile (bus : Z) : Go S (option Conn * option error) :=
  OpenFileWithOptions bus
    (Some {| Force := false; BackupRestoreRegs := None |}).

(** [func (c *Conn) Write(buf []byte) (int, error)]. *)
Definition Write (c : option Conn) (buf : list Z) : Go S (Z * option error) :=
  let* cv := deref c in File_Write P (f cv) buf.

(** [func (c *Conn) WriteByte(b byte) (int, error)]. *)
Definition WriteByte (c : option Conn) (b : Z) : Go S (Z * option error) :=
  let* buf := index_set [0] 0 b in
  let* cv := deref c in
  let* s := slice buf 0 (length buf) in
  File_Write P (f cv) s.

(** [func (c *Conn) Read(p []byte) (int, error)]; the first component is
    [p] after the call. *)
Definition Read (c : option Conn) (p : list Z) : Go S (list Z * Z * option error) :=
  let* cv := deref c in File_Read P (f cv) p.

(** [func (c *Conn) ReadReg(addr, reg uint8) (uint8, error)]. *)
Definition ReadReg (c : option Conn) (a reg : Z) : Go S (Z * option error) :=
  let* err := addr c a in
  match err with
  | Some e => ret (0, Some e)
  | None =>
    let v := 0 in
    let cmd := {| rw := i2cSMBusRead; cmd := reg;
                  len := i2cSMBusByteData; ptr := [v] |} in
    let* cv := deref c in
    let* '(err, m) := ioctl P (Fd (f cv)) i2cSMBus (ArgPtr cmd) in
    ret (bytes_u8 m, err)
  end.

(** [func (c *Conn) WriteReg(addr, reg, v uint8) error]. *)
Definition WriteReg (c : option Conn) (a reg v : Z) : Go S (option error) :=
  let* err := addr c a in
  match err with
  | Some e => ret (Some e)
  | None =>
    let cmd := {| rw := i2cSMBusWrite; cmd := reg;
                  len := i2cSMBusByteData; ptr := [v] |} in
    let* cv := deref c in
    let* '(err, _) := ioctl P (Fd (f cv)) i2cSMBus (ArgPtr cmd) in
    ret err
  end.

(** [func (c *Conn) ReadWord(addr, reg uint8) (uint16, error)]. *)
Definition ReadWord (c : option Conn) (a reg : Z) : Go S (Z * option error) :=
  let* err := addr c a in
  match err with
  | Some e => ret (0, Some e)
  | None =>
    let v := 0 in
    let cmd := {| rw := i2cSMBusRead; cmd := reg;
                  len := i2cSMBusWordData;
                  ptr := u16_bytes (big_endian P) v |} in
    let* cv := deref c in
    let* '(err, m) := ioctl P (Fd (f cv)) i2cSMBus (ArgPtr cmd) in
    ret (bytes_u16 (big_endian P) m, err)
  end.

(** [func (c *Conn) WriteWord(addr, reg uint8, v uint16) error]. *)
Definition WriteWord (c : option Conn) (a reg v : Z) : Go S (option error) :=
  let* err := addr c a in
  match err with
  | Some e => ret (Some e)
  | None =>
    let cmd := {| rw := i2cSMBusWrite; cmd := reg;
                  len := i2cSMBusWordData;
                  ptr := u16_bytes (big_endian P) v |} in
    let* cv := deref c in
    let* '(err, _) := ioctl P (Fd (f cv)) i2cSMBus (ArgPtr cmd) in
    ret err
  end.

(** [func (c *Conn) ReadBlockData(addr, reg uint8, buf []byte) error]; the
    first component is [buf] after the call. *)
Definition ReadBlockData (c : option Conn) (a reg : Z) (buf : list Z)
  : Go S (list Z * option error) :=
  if decide (Z.of_nat (length buf) > i2cSMBusBlockMax) then
    ret (buf, Some errSMBusBlockDataMax)
  else
    let* err := addr c a in
    match err with
    | Some e => ret (buf, Some e)
    | None =>
      let* data := make (length buf + 1) (Z.to_nat (i2cSMBusBlockMax + 2)) in
      let* data := index_set data 0 (byte_of_int (Z.of_nat (length buf))) in
      let cmd := {| rw := i2cSMBusRead; cmd := reg;
                    len := i2cSMBusI2CBlockData; ptr := data |} in
      let* cv := deref c in
      let* '(err, data) := ioctl P (Fd (f cv)) i2cSMBus (ArgPtr cmd) in
      match err with
      | Some e => ret (buf, Some e)
      | None =>
        let* dst := slice buf 0 (length buf) in
        let* src := slice data 1 (length buf + 1) in
        ret (copy dst src, None)
      end
    end.

(** [func (c *Conn) WriteBlockData(addr, reg uint8, buf []byte) error]. *)
Definition WriteBlockData (c : option Conn) (a reg : Z) (buf : list Z)
  : Go S (option error) :=
  if decide (Z.of_nat (length buf) > i2cSMBusBlockMax) then
    ret (Some errSMBusBlockDataMax)
  else
    let* err := addr c a in
    match err with
    | Some e => ret (Some e)
    | None =>
      let* data := make (1 + length buf) (Z.to_nat (i2cSMBusBlockMax + 2)) in
      let* data := index_set data 0 (byte_of_int (Z.of_nat (length buf))) in
      let* tl := slice data 1 (length data) in
      let data := take 1 data ++ copy tl buf in
      let cmd := {| rw := i2cSMBusWrite; cmd := reg;
                    len := i2cSMBusI2CBlockData; ptr := data |} in
      let* cv := deref c in
      let* '(err, _) := ioctl P (Fd (f cv)) i2cSMBus (ArgPtr cmd) in
      ret err
    end.

(** The loop of [Close] over the pairs [kvs] that [range c.backupRegs]
    still has to visit, with both [return c.f.Close()] statements. *)
Fixpoint Close_range (c : option Conn) (kvs : list (Z * Z)) : Go S (option error) :=
  match kvs with
  | [] => let* cv := deref c in File_Close P (f cv)
  | (k, v) :: rest =>
    let* cv := deref c in
    let* err := WriteReg c (backupaddr cv) k v in
    match err with
    | Some _ => let* cv := deref c in File_Close P (f cv)
    | None => Close_range c rest
    end
  end.

(** [func (c *Conn) Close() error]. *)
Definition Close (c : option Conn) : Go S (option error) :=
  let* cv := deref c in
  let* kvs := range_map P (backupRegs cv) in
  Close_range c kvs.

(** The loop [for _, i := range opts.BackupRestoreRegs] of
    [OpenWithOptions], on the connection [cv] that [c] points to. *)
Fixpoint backup_range (cv : Conn) (a : Z) (regs : list Z)
  : Go S (option Conn * option error) :=
  match regs with
  | [] => ret (Some cv, None)
  | i :: rest =>
    let* '(reg, err) := ReadReg (Some cv) a i in
    match err with
    | Some e =>
      let* _ := Close (Some cv) in
      ret (None, Some e)
    | None =>
      backup_range {| f := f cv; force := force cv;
                      backupRegs := <[i:=reg]> (backupRegs cv);
                      backupaddr := backupaddr cv |} a rest
    end
  end.

(** [func OpenWithOptions(bus int, addr uint8, opts *Options) (c *Conn, err error)]. *)
Definition OpenWithOptions (bus a : Z) (opts : option Options)
  : Go S (option Conn * option error) :=
  match opts with
  | None => ret (None, Some (ErrorString "opts is nil"))
  | Some o =>
    let optsOpenFile := {| Force := Force o; BackupRestoreRegs := None |} in
    let* '(c, err) := OpenFileWithOptions bus (Some optsOpenFile) in
    match err with
    | Some e => ret (None, Some e)
    | None =>
      let* err := addr c a in
      match err with
      | Some e =>
        let* _ := Close c in
        ret (None, Some e)
      | None =>
        match BackupRestoreRegs o with
        | Some regs =>
          let* cv := deref c in
          backup_range {| f := f cv; force := force cv;
                          backupRegs := backupRegs cv;
                          backupaddr := a |} a regs
        | None => ret (c, None)
        end
      end
    end
  end.

(** [func Open(bus int, addr uint8) ( *Conn, error)]. *)
Definition Open (bus a : Z) : Go S (option Conn * option error) :=
  OpenWithOptions bus a
    (Some {| Force := false; BackupRestoreRegs := Some [] |}).

End Package.
End SMBus.

(** ** The legacy package ([smbus.go]) *)

Module Legacy.

(** [type Conn struct { f *os.File }]. *)
Record Conn : Type := { f : File }.

Section Package.
Context {S : Type} (P : Platform S).

(** [func Open(bus int, addr uint8) ( *Conn, error)]. *)
Definition Open (bus a : Z) : Go S (option Conn * option error) :=
  let* r := OpenFile_dev P bus in
  match r with
  | inr err => ret (None, Some err)
  | inl file =>
    let* '(err, _) := ioctl P (Fd file) i2cSlave (ArgInt a) in
    match err with
    | Some e => ret (None, Some e)
    | None => ret (Some {| f := file |}, None)
    end
  end.

(** [func (c *Conn) Write(buf []byte) (int, error)]. *)
Definition Write (c : option Conn) (buf : list Z) : Go S (Z * option error) :=
  let* cv := deref c in File_Write P (f cv) buf.

(** [func (c *Conn) WriteByte(b byte) (int, error)]. *)
Definition WriteByte (c : option Conn) (b : Z) : Go S (Z * option error) :=
  let* buf := index_set [0] 0 b in
  let* cv := deref c in
  let* s := slice buf 0 (length buf) in
  File_Write P (f cv) s.

(** [func (c *Conn) Read(p []byte) (int, error)]. *)
Definition Read (c : option Conn) (p : list Z) : Go S (list Z * Z * option error) :=
  let* cv := deref c in File_Read P (f cv) p.

(** [func (c *Conn) Close() error]. *)
Definition Close (c : option Conn) : Go S (option error) :=
  let* cv := deref c in File_Close P (f cv).

(** [func (c *Conn) addr(addr uint8) error]. *)
Definition addr (c : option Conn) (a : Z) : Go S (option error) :=
  let* cv := deref c in
  let* '(err, _) := ioctl P (Fd (f cv)) i2cSlave (ArgInt a) in ret err.

(** [func (c *Conn) ReadReg(addr, reg uint8) (uint8, error)]. *)
Definition ReadReg (c : option Conn) (a reg : Z) : Go S (Z * option error) :=
  let* err := addr c a in
  match err with
  | Some e => ret (0, Some e)
  | None =>
    let v := 0 in
    let cmd := {| rw := i2cSMBusRead; cmd := reg;
                  len := i2cSMBusByteData; ptr := [v] |} in
    let* cv := deref c in
    let* '(err, m) := ioctl P (Fd (f cv)) i2cSMBus (ArgPtr cmd) in
    ret (bytes_u8 m, err)
  end.

(** [func (c *Conn) WriteReg(addr, reg, v uint8) error]. *)
Definition WriteReg (c : option Conn) (a reg v : Z) : Go S (option error) :=
  let* err := addr c a in
  match err with
  | Some e => ret (Some e)
  | None =>
    let cmd := {| rw := i2cSMBusWrite; cmd := reg;
                  len := i2cSMBusByteData; ptr := [v] |} in
    let* cv := deref c in
    let* '(err, _) := ioctl P (Fd (f cv)) i2cSMBus (ArgPtr cmd) in
    ret err
  end.

(** [func (c *Conn) ReadWord(addr, reg uint8) (uint16, error)]. *)
Definition ReadWord (c : option Conn) (a reg : Z) : Go S (Z * option error) :=
  let* err := addr c a in
  match err with
  | Some e => ret (0, Some e)
  | None =>
    let v := 0 in
    let cmd := {| rw := i2cSMBusRead; cmd := reg;
                  len := i2cSMBusWordData;
                  ptr := u16_bytes (big_endian P) v |} in
    let* cv := deref c in
    let* '(err, m) := ioctl P (Fd (f cv)) i2cSMBus (ArgPtr cmd) in
    ret (bytes_u16 (big_endian P) m, err)
  end.

(** [func (c *Conn) WriteWord(addr, reg uint8, v uint16) error]. *)
Definition WriteWord (c : option Conn) (a reg v : Z) : Go S (option error) :=
  let* err := addr c a in
  match err with
  | Some e => ret (Some e)
  | None =>
    let cmd := {| rw := i2cSMBusWrite; cmd := reg;
                  len := i2cSMBusWordData;
                  ptr := u16_bytes (big_endian P) v |} in
    let* cv := deref c in
    let* '(err, _) := ioctl P (Fd (f cv)) i2cSMBus (ArgPtr cmd) in
    ret err
  end.

End Package.
End Legacy.

(** ** Vocabulary of the specification *)

#[global] Instance File_eq_dec : EqDecision File.
Proof. solve_decision. Defined.

(** Handles that a trace leaves open: [os.OpenFile] adds the file it
    returned, [Close] releases one occurrence of its file. *)
Fixpoint remove_first (x : File) (l : list File) : list File :=
  match l with
  | [] => []
  | y :: l' => if decide (x = y) then l' else y :: remove_first x l'
  end.

Definition handle_step (hs : list File) (e : Event) : list File :=
  match e with
  | EvOpen _ _ _ (inl file) => file :: hs
  | EvClose file _ => remove_first file hs
  | _ => hs
  end.

Definition open_handles (t : list Event) : list File := foldl handle_step [] t.

(** The ioctl calls of a trace. *)
Definition is_ioctl (e : Event) : bool :=
  match e with EvIoctl _ _ _ _ _ => true | _ => false end.

(** The address-select call of a connection and the four byte and word
    commands. *)
Definition select_code (force : bool) : Z :=
  if force then i2cSlaveForce else i2cSlave.

Definition select_event (fd : Z) (force : bool) (a e : Z) : Event :=
  EvIoctl fd (select_code force) (ArgInt a) e [].

Definition read_byte_cmd (reg : Z) : i2cCmd :=
  {| rw := i2cSMBusRead; cmd := reg; len := i2cSMBusByteData; ptr := [0] |}.

Definition write_byte_cmd (reg v : Z) : i2cCmd :=
  {| rw := i2cSMBusWrite; cmd := reg; len := i2cSMBusByteData; ptr := [v] |}.

Definition read_word_cmd (be : bool) (reg : Z) : i2cCmd :=
  {| rw := i2cSMBusRead; cmd := reg; len := i2cSMBusWordData;
     ptr := u16_bytes be 0 |}.

Definition write_word_cmd (be : bool) (reg v : Z) : i2cCmd :=
  {| rw := i2cSMBusWrite; cmd := reg; len := i2cSMBusWordData;
     ptr := u16_bytes be v |}.

(** The scratch buffers of the block transactions. *)
Definition write_block_cmd (reg : Z) (buf : list Z) : i2cCmd :=
  {| rw := i2cSMBusWrite; cmd := reg; len := i2cSMBusI2CBlockData;
     ptr := Z.of_nat (length buf) :: buf |}.

Definition read_block_cmd (reg : Z) (n : nat) : i2cCmd :=
  {| rw := i2cSMBusRead; cmd := reg; len := i2cSMBusI2CBlockData;
     ptr := Z.of_nat n :: replicate n 0 |}.

(** [txn fd force a cmd err mem evs]: [evs] is what one register
    transaction on address [a] with command [cmd] leaves in the trace,
    [err] is the error it returns and [mem] the object behind the command
    afterwards.  Either the address-select call fails, its errno is the
    error and nothing follows; or it succeeds and exactly one transfer call
    follows, whose errno decides the error. *)
Inductive txn (fd : Z) (force : bool) (a : Z) (cmd : i2cCmd)
  : option error → list Z → list Event → Prop :=
| txn_select_failed e :
    e ≠ 0 →
    txn fd force a cmd (Some (Errno e)) (ptr cmd) [select_event fd force a e]
| txn_transferred e mem :
    length mem = length (ptr cmd) →
    txn fd force a cmd (errno_error e) mem
      [select_event fd force a 0; EvIoctl fd i2cSMBus (ArgPtr cmd) e mem].

(** [backed_up fd force a rvs evs]: [evs] is the trace of the successful
    byte reads of the registers of [rvs], in order, each returning the
    value paired with it. *)
Inductive backed_up (fd : Z) (force : bool) (a : Z)
  : list (Z * Z) → list Event → Prop :=
| backed_up_nil : backed_up fd force a [] []
| backed_up_cons reg v rvs evs evs' :
    txn fd force a (read_byte_cmd reg) None [v] evs →
    backed_up fd force a rvs evs' →
    backed_up fd force a ((reg, v) :: rvs) (evs ++ evs').

(** [restored fd force a kvs done evs]: [evs] is the trace of the restore
    loop of [Close] over the pairs [kvs]: the pairs of [done], a prefix of
    [kvs], were written back, one transaction each; the loop stopped there
    either because [kvs] was exhausted or because the write of the next
    pair failed, which abandons the pairs after it. *)
Inductive restored (fd : Z) (force : bool) (a : Z)
  : list (Z * Z) → list (Z * Z) → list Event → Prop :=
| restored_all : restored fd force a [] [] []
| restored_abandon k v rest e mem evs :
    txn fd force a (write_byte_cmd k v) (Some e) mem evs →
    restored fd force a ((k, v) :: rest) [] evs
| restored_next k v rest done mem evs evs' :
    txn fd force a (write_byte_cmd k v) None mem evs →
    restored fd force a rest done evs' →
    restored fd force a ((k, v) :: rest) ((k, v) :: done) (evs ++ evs').

(** The map that the backup loop has recorded after reading [rvs],
    starting from [m]. *)
Definition recorded_from (m : gmap Z Z) (rvs : list (Z * Z)) : gmap Z Z :=
  foldl (λ m rv, <[rv.1 := rv.2]> m) m rvs.

Definition recorded (rvs : list (Z * Z)) : gmap Z Z := recorded_from ∅ rvs.

(** [backup_outcome P file force a m regs res evs]: what the backup loop of
    [OpenWithOptions] over [regs] returns and leaves in the trace, on a
    connection to [file] whose map is [m].  Either every register was read,
    in order, and the connection carries the recorded values; or the read
    of one register failed after the reads of those before it succeeded,
    and then the loop ran [Close] on what was recorded so far (the restore
    loop over that map in the order of [range], then the close of the
    file) and returned no connection and the error of the failed read. *)
Inductive backup_outcome {S} (P : Platform S) (file : File) (force : bool)
  (a : Z) (m : gmap Z Z)
  : list Z → option SMBus.Conn * option error → list Event → Prop :=
| backup_done rvs evs :
    backed_up (Fd file) force a rvs evs →
    backup_outcome P file force a m (rvs.*1)
      (Some {| SMBus.f := file; SMBus.force := force;
               SMBus.backupRegs := recorded_from m rvs;
               SMBus.backupaddr := a |}, None)
      evs
| backup_aborted rvs reg rest e mem evs evf s done evr cerr :
    backed_up (Fd file) force a rvs evs →
    txn (Fd file) force a (read_byte_cmd reg) (Some e) mem evf →
    restored (Fd file) force a
      (map_range P (recorded_from m rvs) s) done evr →
    backup_outcome P file force a m (rvs.*1 ++ reg :: rest)
      (None, Some e)
      (evs ++ evf ++ evr ++ [EvClose file cerr]).

(** The write transfer of value [v] to register [reg] occurs in a trace. *)
Definition written_back (fd reg v : Z) (t : list Event) : Prop :=
  ∃ e mem, EvIoctl fd i2cSMBus (ArgPtr (write_byte_cmd reg v)) e mem ∈ t.

(** A [range] statement visits every entry of the map exactly once. *)
Definition range_ok {S} (P : Platform S) : Prop :=
  ∀ m s, map_range P m s ≡ₚ map_to_list m.

(** A bus that echoes writes: [last s reg] is the scratch buffer last
    written to register [reg]; selecting an address succeeds and keeps it,
    a write transfer succeeds and records its buffer, a read transfer of a
    register written before succeeds and stores that buffer. *)
Record echo_bus {S} (P : Platform S) (last : S → Z → option (list Z)) : Prop := {
  echo_select : ∀ fd force a s,
    (sys_ioctl P fd (select_code force) (ArgInt a) s).1.1 = 0 ∧
    last (sys_ioctl P fd (select_code force) (ArgInt a) s).2 = last s;
  echo_write : ∀ fd c s,
    rw c = i2cSMBusWrite →
    (sys_ioctl P fd i2cSMBus (ArgPtr c) s).1.1 = 0 ∧
    last (sys_ioctl P fd i2cSMBus (ArgPtr c) s).2 (cmd c) = Some (ptr c);
  echo_read : ∀ fd c s d,
    rw c = i2cSMBusRead →
    last s (cmd c) = Some d →
    (sys_ioctl P fd i2cSMBus (ArgPtr c) s).1 = (0, d)
}.

(** Every transaction of the package has the same shape: select the
    address and stop with [failed] when that fails, else issue one transfer
    of [cmd], whose error and memory [k] turns into the result. *)
Definition transaction {S A} (P : Platform S) (c : option SMBus.Conn) (a : Z)
  (cmd : i2cCmd) (failed : error → A) (k : option error → list Z → A) : Go S A :=
  let* err := SMBus.addr P c a in
  match err with
  | Some e => ret (failed e)
  | None =>
    let* cv := deref c in
    let* '(err, m) := ioctl P (Fd (SMBus.f cv)) i2cSMBus (ArgPtr cmd) in
    ret (k err m)
  end.

(** A register file behind the bus: [last s reg] is the content of
    register [reg] in state [s].  Opening and closing the device file and
    selecting an address leave every register alone, and selecting
    succeeds; a write transfer succeeds, stores its buffer in its register
    and leaves the others alone; a read transfer of a register that holds
    something succeeds, stores the content through the pointer and leaves
    every register alone. *)
Record register_file {S} (P : Platform S) (last : S → Z → option (list Z))
  : Prop := {
  rf_open : ∀ path flag perm s r,
    last (os_OpenFile P path flag perm s).2 r = last s r;
  rf_close : ∀ file s r, last (file_Close P file s).2 r = last s r;
  rf_select : ∀ fd force a s,
    (sys_ioctl P fd (select_code force) (ArgInt a) s).1.1 = 0 ∧
    ∀ r, last (sys_ioctl P fd (select_code force) (ArgInt a) s).2 r = last s r;
  rf_write : ∀ fd c s,
    rw c = i2cSMBusWrite →
    (sys_ioctl P fd i2cSMBus (ArgPtr c) s).1.1 = 0 ∧
    last (sys_ioctl P fd i2cSMBus (ArgPtr c) s).2 (cmd c) = Some (ptr c) ∧
    ∀ r, r ≠ cmd c → last (sys_ioctl P fd i2cSMBus (ArgPtr c) s).2 r = last s r;
  rf_read : ∀ fd c s d,
    rw c = i2cSMBusRead →
    last s (cmd c) = Some d →
    (sys_ioctl P fd i2cSMBus (ArgPtr c) s).1 = (0, d) ∧
    ∀ r, last (sys_ioctl P fd i2cSMBus (ArgPtr c) s).2 r = last s r
}.

(** The connection of the package with options that stands for a legacy
    connection: same file, no forcing, nothing backed up. *)
Definition upgrade (ba : Z) (c : Legacy.Conn) : SMBus.Conn :=
  {| SMBus.f := Legacy.f c; SMBus.force := false;
     SMBus.backupRegs := ∅; SMBus.backupaddr := ba |}.

(** A computation that cannot panic. *)
Definition never_panics {S A} (m : Go S A) : Prop :=
  ∀ w, ∃ a w', m w = (Ok a, w').

Definition panics {S A} (m : Go S A) : Prop :=
  ∀ w, ∃ msg, m w = (Panic msg, w).

(** ** What the platform is asked

    The definitions below replay an operation on the platform alone, with
    no Go code in between: which calls are put to [sys_ioctl], [os_OpenFile]
    and [file_Close], in which state, and what is made of the answers.
    They are the reference the package is compared with. *)

(** The result of an operation, the events it leaves and the state of the
    platform after it. *)
Record Run (S A : Type) : Type :=
  { run_result : A; run_events : list Event; run_state : S }.
Arguments Build_Run {S A}.
Arguments run_result {S A}.
Arguments run_events {S A}.
Arguments run_state {S A}.

(** The same run with its result seen through [f]. *)
Definition run_map {S A B} (f : A → B) (r : Run S A) : Run S B :=
  {| run_result := f (run_result r);
     run_events := run_events r; run_state := run_state r |}.

(** What a Go computation that behaves as the run [r] gives in world [w]. *)
Definition played {S A} (w : World S) (r : Run S A) : Outcome A * World S :=
  (Ok (run_result r),
   {| kstate := run_state r; trace := trace w ++ run_events r |}).

(** One register transaction: the address-select ioctl is put to the
    platform in state [s]; when its errno is not 0 that is the error and
    nothing else is asked; otherwise the transfer ioctl with [cmd] is put
    to the platform in the state the select left, its errno decides the
    error and what it stored is overlaid on the memory behind [cmd]. *)
Definition txn_run {S} (P : Platform S) (fd : Z) (force : bool) (a : Z)
  (cmd : i2cCmd) (s : S) : Run S (option error * list Z) :=
  let sel := sys_ioctl P fd (select_code force) (ArgInt a) s in
  if decide (sel.1.1 = 0) then
    let tr := sys_ioctl P fd i2cSMBus (ArgPtr cmd) sel.2 in
    {| run_result := (errno_error tr.1.1, copy (ptr cmd) tr.1.2);
       run_events :=
         [select_event fd force a 0;
          EvIoctl fd i2cSMBus (ArgPtr cmd) tr.1.1 (copy (ptr cmd) tr.1.2)];
       run_state := tr.2 |}
  else
    {| run_result := (Some (Errno sel.1.1), ptr cmd);
       run_events := [select_event fd force a sel.1.1];
       run_state := sel.2 |}.

(** Restoring the pairs [kvs] in order: one write transaction per pair,
    each in the state the one before left, until the pairs are exhausted
    or a write fails.  The result is the list of the pairs written. *)
Fixpoint restore_run {S} (P : Platform S) (fd : Z) (force : bool) (a : Z)
  (kvs : list (Z * Z)) (s : S) : Run S (list (Z * Z)) :=
  match kvs with
  | [] => {| run_result := []; run_events := []; run_state := s |}
  | (k, v) :: rest =>
    let t := txn_run P fd force a (write_byte_cmd k v) s in
    match (run_result t).1 with
    | Some _ =>
      {| run_result := []; run_events := run_events t; run_state := run_state t |}
    | None =>
      let r := restore_run P fd force a rest (run_state t) in
      {| run_result := (k, v) :: run_result r;
         run_events := run_events t ++ run_events r;
         run_state := run_state r |}
    end
  end.

(** Closing a connection: the backup map is restored in the order of
    [range], then the file is closed in the state the restore left; the
    result is the result of that close. *)
Definition close_run {S} (P : Platform S) (cv : SMBus.Conn) (s : S)
  : Run S (option error) :=
  let r := restore_run P (Fd (SMBus.f cv)) (SMBus.force cv) (SMBus.backupaddr cv)
             (map_range P (SMBus.backupRegs cv) s) s in
  let cl := file_Close P (SMBus.f cv) (run_state r) in
  {| run_result := cl.1;
     run_events := run_events r ++ [EvClose (SMBus.f cv) cl.1];
     run_state := cl.2 |}.

(** Backing up the registers [regs] in order: one byte read transaction
    per register, each in the state the one before left, until the
    registers are exhausted or a read fails.  The result is the list of
    the registers read with the byte each read stored, and the error of
    the read that failed, if one did. *)
Fixpoint backup_run {S} (P : Platform S) (fd : Z) (force : bool) (a : Z)
  (regs : list Z) (s : S) : Run S (list (Z * Z) * option error) :=
  match regs with
  | [] => {| run_result := ([], None); run_events := []; run_state := s |}
  | i :: rest =>
    let t := txn_run P fd force a (read_byte_cmd i) s in
    match (run_result t).1 with
    | Some e =>
      {| run_result := ([], Some e);
         run_events := run_events t; run_state := run_state t |}
    | None =>
      let b := backup_run P fd force a rest (run_state t) in
      {| run_result := ((i, bytes_u8 (run_result t).2) :: (run_result b).1,
                        (run_result b).2);
         run_events := run_events t ++ run_events b;
         run_state := run_state b |}
    end
  end.

(** The backup phase of an open on [file], for a connection whose map is
    [m]: the backup of [regs]; when every read succeeded the connection is
    returned with what was read; when one failed the connection is closed
    and the error of that read returned. *)
Definition open_backup_run {S} (P : Platform S) (file : File) (force : bool)
  (a : Z) (m : gmap Z Z) (regs : list Z) (s : S)
  : Run S (option SMBus.Conn * option error) :=
  let b := backup_run P (Fd file) force a regs s in
  let cv := {| SMBus.f := file; SMBus.force := force;
               SMBus.backupRegs := recorded_from m (run_result b).1;
               SMBus.backupaddr := a |} in
  match (run_result b).2 with
  | None =>
    {| run_result := (Some cv, None);
       run_events := run_events b; run_state := run_state b |}
  | Some e =>
    let c := close_run P cv (run_state b) in
    {| run_result := (None, Some e);
       run_events := run_events b ++ run_events c;
       run_state := run_state c |}
  end.

(** Opening [/dev/i2c-<bus>] at address [a] with [opts]: nothing is asked
    for a nil options pointer; otherwise the file is opened; on success the
    address is selected on it; when that fails the fresh connection is
    closed; when it succeeds the backup phase follows if a list was
    given. *)
Definition open_run {S} (P : Platform S) (bus a : Z)
  (opts : option SMBus.Options) (s : S)
  : Run S (option SMBus.Conn * option error) :=
  match opts with
  | None =>
    {| run_result := (None, Some (ErrorString "opts is nil"));
       run_events := []; run_state := s |}
  | Some o =>
    let op := os_OpenFile P (dev_path bus) O_RDWR perm0600 s in
    match op.1 with
    | inr err =>
      {| run_result := (None, Some err);
         run_events := [EvOpen (dev_path bus) O_RDWR perm0600 (inr err)];
         run_state := op.2 |}
    | inl file =>
      let force := SMBus.Force o in
      let c0 := {| SMBus.f := file; SMBus.force := force;
                   SMBus.backupRegs := ∅; SMBus.backupaddr := 0 |} in
      let opened := EvOpen (dev_path bus) O_RDWR perm0600 (inl file) in
      let sel := sys_ioctl P (Fd file) (select_code force) (ArgInt a) op.2 in
      if decide (sel.1.1 = 0) then
        match SMBus.BackupRestoreRegs o with
        | None =>
          {| run_result := (Some c0, None);
             run_events := [opened; select_event (Fd file) force a 0];
             run_state := sel.2 |}
        | Some regs =>
          let b := open_backup_run P file force a ∅ regs sel.2 in
          {| run_result := run_result b;
             run_events :=
               [opened; select_event (Fd file) force a 0] ++ run_events b;
             run_state := run_state b |}
        end
      else
        let c := close_run P c0 sel.2 in
        {| run_result := (None, Some (Errno sel.1.1));
           run_events :=
             [opened; select_event (Fd file) force a sel.1.1] ++ run_events c;
           run_state := run_state c |}
    end
  end.

(** ** A scripted adapter

    One device with byte registers behind [/dev/i2c-<bus>]: a register holds
    the bytes last written to it.  The script says which calls fail. *)

Record Script : Type := {
  select_errno : Z;        (* errno of the address-select calls *)
  write_errno : Z;         (* errno of the write transfers *)
  unreadable : list Z      (* registers whose read transfer fails *)
}.

Definition EIO : Z := 5.
Definition EBUSY : Z := 16.
Definition EINVAL : Z := 22.

Definition mock_ioctl (sc : Script) (fd req : Z) (arg : IoctlArg)
  (s : gmap Z (list Z)) : (Z * list Z) * gmap Z (list Z) :=
  match arg with
  | ArgInt _ =>
    if decide (req = i2cSlave ∨ req = i2cSlaveForce)
    then ((select_errno sc, []), s) else ((EINVAL, []), s)
  | ArgPtr c =>
    if decide (req = i2cSMBus) then
      if decide (rw c = i2cSMBusRead) then
        if decide (cmd c ∈ unreadable sc) then ((EIO, []), s)
        else ((0, default [] (s !! cmd c)), s)
      else
        if decide (write_errno sc = 0) then ((0, []), <[cmd c := ptr c]> s)
        else ((write_errno sc, []), s)
    else ((EINVAL, []), s)
  end.

Definition mock (sc : Script) : Platform (gmap Z (list Z)) := {|
  os_OpenFile := λ _ _ _ s, (inl {| Fd := 3 |}, s);
  sys_ioctl := mock_ioctl sc;
  file_Write := λ _ buf s, ((Z.of_nat (length buf), None), s);
  file_Read := λ _ _ s, (([], 0, None), s);
  file_Close := λ _ s, (None, s);
  map_range := λ m _, map_to_list m;
  big_endian := false
|}.

Definition healthy : Script :=
  {| select_errno := 0; write_errno := 0; unreadable := [] |}.

(** Register 3 cannot be read. *)
Definition unreadable3 : Script :=
  {| select_errno := 0; write_errno := 0; unreadable := [3] |}.

(** Register 3 cannot be read and no register can be written. *)
Definition read_only : Script :=
  {| select_errno := 0; write_errno := EIO; unreadable := [3] |}.

(** The address is claimed by a kernel driver. *)
Definition busy : Script :=
  {| select_errno := EBUSY; write_errno := 0; unreadable := [] |}.

Definition world0 : World (gmap Z (list Z)) := {| kstate := ∅; trace := [] |}.

(** Registers 1 and 2 hold 7 and 9; later they hold something else. *)
Definition world79 : World (gmap Z (list Z)) :=
  {| kstate := {[ 1 := [7]; 2 := [9] ]}; trace := [] |}.

Definition world_scrambled : World (gmap Z (list Z)) :=
  {| kstate := {[ 1 := [0]; 2 := [255]; 4 := [1] ]}; trace := [] |}.

(** The connection that [OpenFileWithOptions] returns when asked to force. *)
Definition conn_forced : SMBus.Conn :=
  {| SMBus.f := {| Fd := 3 |}; SMBus.force := true;
     SMBus.backupRegs := ∅; SMBus.backupaddr := 0 |}.

(** Register 0x20 answers a block read with two payload bytes only. *)
Definition world_short : World (gmap Z (list Z)) :=
  {| kstate := {[ 0x20 := [2; 5; 6] ]}; trace := [] |}.

(** A connection that has backed up registers 1 and 2. *)
Definition conn12 : SMBus.Conn :=
  {| SMBus.f := {| Fd := 3 |}; SMBus.force := false;
     SMBus.backupRegs := {[ 1 := 7; 2 := 9 ]}; SMBus.backupaddr := 0x50 |}.

(** The connection that [Open(1, 0x50)] returns on the scripted adapter. *)
Definition conn0 : SMBus.Conn :=
  {| SMBus.f := {| Fd := 3 |}; SMBus.force := false;
     SMBus.backupRegs := ∅; SMBus.backupaddr := 0x50 |}.

(** * Verification *)

(** ** Slices *)

Lemma length_copy (dst src : list Z) : length (copy dst src) = length dst.
Proof.
  unfold copy. rewrite length_take, length_app, length_drop. lia.
Qed.

Lemma copy_same_length (dst src : list Z) :
  length src = length dst → copy dst src = src.
Proof.
  intros H. unfold copy. rewrite H, drop_all, app_nil_r.
  rewrite <- H. apply firstn_all.
Qed.

Lemma copy_nil_r (dst : list Z) : copy dst [] = dst.
Proof. unfold copy. simpl. apply firstn_all. Qed.

Lemma errno_error_0 : errno_error 0 = None.
Proof. reflexivity. Qed.

Lemma errno_error_ne (e : Z) : e ≠ 0 → errno_error e = Some (Errno e).
Proof. intros H. unfold errno_error. by destruct (decide (e ≠ 0)). Qed.

(** ** Sequencing *)

Lemma bind_ok {S A B} (m : Go S A) (k : A → Go S B) w a w' :
  m w = (Ok a, w') → bind m k w = k a w'.
Proof. intros H. unfold bind. by rewrite H. Qed.

Lemma bind_panicked {S A B} (m : Go S A) (k : A → Go S B) w msg w' :
  m w = (Panic msg, w') → bind m k w = (Panic msg, w').
Proof. intros H. unfold bind. by rewrite H. Qed.

Lemma make_ok {S} (n c : nat) (w : World S) :
  (n ≤ c)%nat → make n c w = (Ok (replicate n 0), w).
Proof. intros H. unfold make. by case_decide. Qed.

Lemma index_set_ok {S} (s : list Z) i x (w : World S) :
  (i < length s)%nat → index_set s i x w = (Ok (<[i:=x]> s), w).
Proof. intros H. unfold index_set. by case_decide. Qed.

Lemma slice_ok {S} (s : list Z) lo hi (w : World S) :
  (lo ≤ hi ≤ length s)%nat → slice s lo hi w = (Ok (take (hi - lo) (drop lo s)), w).
Proof. intros H. unfold slice. by case_decide. Qed.

(** ** One call, one event *)

Section Calls.
Context {S : Type} (P : Platform S).

Lemma ioctl_run fd req arg (w : World S) :
  ioctl P fd req arg w =
  (Ok (errno_error (sys_ioctl P fd req arg (kstate w)).1.1,
       mem_after arg (sys_ioctl P fd req arg (kstate w)).1.2),
   {| kstate := (sys_ioctl P fd req arg (kstate w)).2;
      trace := trace w ++
        [EvIoctl fd req arg (sys_ioctl P fd req arg (kstate w)).1.1
           (mem_after arg (sys_ioctl P fd req arg (kstate w)).1.2)] |}).
Proof.
  unfold ioctl, bind, call, ret.
  by destruct (sys_ioctl P fd req arg (kstate w)) as [[e wb] s'].
Qed.

Lemma File_Close_run file (w : World S) :
  File_Close P file w =
  (Ok (file_Close P file (kstate w)).1,
   {| kstate := (file_Close P file (kstate w)).2;
      trace := trace w ++ [EvClose file (file_Close P file (kstate w)).1] |}).
Proof.
  unfold File_Close, call. by destruct (file_Close P file (kstate w)).
Qed.

Lemma addr_run cv a (w : World S) :
  SMBus.addr P (Some cv) a w =
  (Ok (errno_error
         (sys_ioctl P (Fd (SMBus.f cv)) (select_code (SMBus.force cv))
            (ArgInt a) (kstate w)).1.1),
   {| kstate := (sys_ioctl P (Fd (SMBus.f cv)) (select_code (SMBus.force cv))
                   (ArgInt a) (kstate w)).2;
      trace := trace w ++
        [select_event (Fd (SMBus.f cv)) (SMBus.force cv) a
           (sys_ioctl P (Fd (SMBus.f cv)) (select_code (SMBus.force cv))
              (ArgInt a) (kstate w)).1.1] |}).
Proof.
  unfold SMBus.addr, select_event, select_code. cbn [deref].
  unfold bind at 1. cbn [ret].
  destruct (SMBus.force cv); unfold bind; rewrite ioctl_run; reflexivity.
Qed.

(** What a transaction does, call by call. *)
Lemma transaction_run {A} cv a cmd (failed : error → A) k (w : World S) :
  let fd := Fd (SMBus.f cv) in
  let r := sys_ioctl P fd (select_code (SMBus.force cv)) (ArgInt a) (kstate w) in
  let r' := sys_ioctl P fd i2cSMBus (ArgPtr cmd) r.2 in
  transaction P (Some cv) a cmd failed k w =
  if decide (r.1.1 = 0) then
    (Ok (k (errno_error r'.1.1) (copy (ptr cmd) r'.1.2)),
     {| kstate := r'.2;
        trace := trace w ++
          [select_event fd (SMBus.force cv) a 0;
           EvIoctl fd i2cSMBus (ArgPtr cmd) r'.1.1 (copy (ptr cmd) r'.1.2)] |})
  else
    (Ok (failed (Errno r.1.1)),
     {| kstate := r.2;
        trace := trace w ++ [select_event fd (SMBus.force cv) a r.1.1] |}).
Proof.
  intros fd r r'. unfold transaction. unfold bind at 1. rewrite addr_run.
  fold fd. fold r. destruct (decide (r.1.1 = 0)) as [E0|E0].
  - rewrite E0, errno_error_0. cbn [deref]. unfold bind at 1. cbn [ret].
    unfold bind. rewrite ioctl_run. cbn [kstate trace mem_after].
    fold fd. fold r'. by rewrite <- app_assoc.
  - by rewrite (errno_error_ne _ E0).
Qed.

(** The same, as the events of one [txn]. *)
Lemma transaction_txn {A} cv a cmd (failed : error → A) k (w : World S) :
  (∀ e, failed e = k (Some e) (ptr cmd)) →
  ∃ err mem evs w',
    txn (Fd (SMBus.f cv)) (SMBus.force cv) a cmd err mem evs ∧
    trace w' = trace w ++ evs ∧
    transaction P (Some cv) a cmd failed k w = (Ok (k err mem), w').
Proof.
  intros Hfailed. rewrite transaction_run.
  set (r := sys_ioctl P _ (select_code _) _ _).
  set (r' := sys_ioctl P _ i2cSMBus _ _).
  destruct (decide (r.1.1 = 0)) as [E0|E0].
  - exists (errno_error r'.1.1), (copy (ptr cmd) r'.1.2).
    eexists _, _. split_and!; [| |reflexivity]; [|reflexivity].
    apply (txn_transferred _ _ _ _ r'.1.1). apply length_copy.
  - exists (Some (Errno r.1.1)), (ptr cmd).
    eexists _, _. split_and!; [| |by rewrite Hfailed]; [|reflexivity].
    by apply txn_select_failed.
Qed.

(** The six register methods are transactions. *)
Lemma ReadReg_transaction c a reg :
  SMBus.ReadReg P c a reg =
  transaction P c a (read_byte_cmd reg)
    (λ e, (0, Some e)) (λ err m, (bytes_u8 m, err)).
Proof. reflexivity. Qed.

Lemma WriteReg_transaction c a reg v :
  SMBus.WriteReg P c a reg v =
  transaction P c a (write_byte_cmd reg v) Some (λ err _, err).
Proof. reflexivity. Qed.

Lemma ReadWord_transaction c a reg :
  SMBus.ReadWord P c a reg =
  transaction P c a (read_word_cmd (big_endian P) reg)
    (λ e, (0, Some e)) (λ err m, (bytes_u16 (big_endian P) m, err)).
Proof. reflexivity. Qed.

Lemma WriteWord_transaction c a reg v :
  SMBus.WriteWord P c a reg v =
  transaction P c a (write_word_cmd (big_endian P) reg v) Some (λ err _, err).
Proof. reflexivity. Qed.

Lemma byte_of_length (buf : list Z) :
  (length buf ≤ 32)%nat →
  byte_of_int (Z.of_nat (length buf)) = Z.of_nat (length buf).
Proof. intros H. unfold byte_of_int. apply Z.mod_small. lia. Qed.

Lemma WriteBlockData_transaction c a reg buf (w : World S) :
  (length buf ≤ 32)%nat →
  SMBus.WriteBlockData P c a reg buf w =
  transaction P c a (write_block_cmd reg buf) Some (λ err _, err) w.
Proof.
  intros Hlen. unfold SMBus.WriteBlockData, transaction.
  case_decide as Hbig; [unfold i2cSMBusBlockMax in Hbig; lia|].
  destruct (SMBus.addr P c a w) as [[[e|]|msg] w1] eqn:E.
  - by rewrite !(bind_ok _ _ _ _ _ E).
  - rewrite !(bind_ok _ _ _ _ _ E).
    erewrite bind_ok by (apply make_ok; unfold i2cSMBusBlockMax; lia).
    erewrite bind_ok by (apply index_set_ok; cbn; lia).
    erewrite bind_ok
      by (apply slice_ok; rewrite length_insert, length_replicate; lia).
    replace (take 1 _ ++ copy _ buf) with (ptr (write_block_cmd reg buf));
      [reflexivity|].
    rewrite length_insert, length_replicate.
    cbn [ptr write_block_cmd replicate Nat.add list_insert insert take drop app].
    rewrite (byte_of_length _ Hlen). f_equal.
    rewrite take_0, drop_0. cbn [app].
    replace (Datatypes.S (length buf) - 1)%nat with (length buf) by lia.
    rewrite take_ge by (rewrite length_replicate; lia).
    symmetry. apply copy_same_length. by rewrite length_replicate.
  - by rewrite !(bind_panicked _ _ _ _ _ E).
Qed.

Lemma ReadBlockData_transaction c a reg buf (w : World S) :
  (length buf ≤ 32)%nat →
  SMBus.ReadBlockData P c a reg buf w =
  transaction P c a (read_block_cmd reg (length buf))
    (λ e, (buf, Some e))
    (λ err m, match err with
              | Some e => (buf, Some e)
              | None => (take (length buf) (drop 1 m), None)
              end) w.
Proof.
  intros Hlen. unfold SMBus.ReadBlockData, transaction.
  case_decide as Hbig; [unfold i2cSMBusBlockMax in Hbig; lia|].
  destruct (SMBus.addr P c a w) as [[[e|]|msg] w1] eqn:E.
  - by rewrite !(bind_ok _ _ _ _ _ E).
  - rewrite !(bind_ok _ _ _ _ _ E).
    erewrite bind_ok by (apply make_ok; unfold i2cSMBusBlockMax; lia).
    erewrite bind_ok by (apply index_set_ok; rewrite length_replicate; lia).
    replace (<[0%nat:=_]> (replicate _ 0))
      with (ptr (read_block_cmd reg (length buf))).
    2:{ rewrite Nat.add_1_r, (byte_of_length _ Hlen). reflexivity. }
    change {| rw := i2cSMBusRead; cmd := reg; len := i2cSMBusI2CBlockData;
              ptr := ptr (read_block_cmd reg (length buf)) |}
      with (read_block_cmd reg (length buf)).
    destruct c as [cv|]; [|reflexivity]. cbn [deref].
    erewrite !(bind_ok (ret cv)) by reflexivity.
    unfold bind. rewrite !ioctl_run.
    set (r := sys_ioctl P _ _ _ _). cbn [mem_after].
    destruct (errno_error r.1.1); [reflexivity|].
    assert (Hm : length (copy (ptr (read_block_cmd reg (length buf))) r.1.2)
                 = (length buf + 1)%nat).
    { rewrite length_copy. cbn. rewrite length_replicate. lia. }
    rewrite slice_ok by lia. rewrite slice_ok by lia.
    cbn [ret]. do 2 f_equal. f_equal.
    rewrite Nat.sub_0_r, drop_0, firstn_all.
    replace (length buf + 1 - 1)%nat with (length buf) by lia.
    apply copy_same_length.
    rewrite length_take, length_drop. lia.
  - by rewrite !(bind_panicked _ _ _ _ _ E).
Qed.

End Calls.

Lemma errno_error_None (e : Z) : errno_error e = None → e = 0.
Proof.
  unfold errno_error. case_decide as H; [done|]. intros _.
  destruct (decide (e = 0)); [done|]. by destruct H.
Qed.

(** The scripted adapter without failures echoes writes. *)
Lemma mock_healthy_echo : echo_bus (mock healthy) (λ s reg, s !! reg).
Proof.
  split.
  - intros fd force a s. by destruct force.
  - intros fd c s Hrw. cbn. unfold mock_ioctl.
    rewrite decide_True by done. rewrite Hrw.
    rewrite decide_False by done. cbn. rewrite decide_True by done.
    cbn. by rewrite lookup_insert_eq.
  - intros fd c s d Hrw Hd. cbn. unfold mock_ioctl.
    rewrite decide_True by done. rewrite Hrw, decide_True by done.
    cbn. by rewrite Hd.
Qed.

(** ** Block transactions *)

(** C1. A buffer of more than 32 bytes makes both [ReadBlockData] and
    [WriteBlockData] return [errSMBusBlockDataMax] at once: the world after
    the call is the world before it, so the trace has gained no call at
    all, neither an address-select ioctl nor a transfer ioctl, and the
    buffer of the read is untouched.  This holds for every receiver, every
    address and every register. *)
Theorem block_too_big_no_io {S} (P : Platform S) c a reg (buf : list Z)
  (w : World S) :
  (length buf > 32)%nat →
  SMBus.ReadBlockData P c a reg buf w =
    (Ok (buf, Some SMBus.errSMBusBlockDataMax), w) ∧
  SMBus.WriteBlockData P c a reg buf w =
    (Ok (Some SMBus.errSMBusBlockDataMax), w).
Proof.
  intros Hlen. unfold SMBus.ReadBlockData, SMBus.WriteBlockData.
  rewrite !decide_True by (unfold i2cSMBusBlockMax; lia). done.
Qed.

Lemma block_too_big_no_io_witness :
  (length (replicate 33 7) > 32)%nat ∧
  SMBus.WriteBlockData (mock healthy) None 80 32 (replicate 33 7) world0 =
    (Ok (Some SMBus.errSMBusBlockDataMax), world0).
Proof.
  split; [vm_compute; lia|].
  apply (block_too_big_no_io (mock healthy) None 80 32 (replicate 33 7) world0).
  vm_compute; lia.
Defined.

(** C2. For a buffer of at most 32 bytes, once the address is selected:
    [WriteBlockData] issues one transfer ioctl whose command has size class
    I2C-block-data (8) and a scratch buffer of [len(buf)+1] bytes, byte 0
    being [len(buf)] and the rest the payload, and returns the error of
    that ioctl.  [ReadBlockData] issues one transfer ioctl with a scratch
    buffer of [len(buf)+1] bytes whose byte 0 is [len(buf)]; when the ioctl
    succeeds the caller's buffer becomes bytes [1..len(buf)+1] of the
    scratch buffer as the kernel left it, whatever byte 0 then holds; when
    it fails the buffer is unchanged and the error is returned. *)
Theorem block_scratch_buffer {S} (P : Platform S) cv a reg (buf : list Z)
  (w w1 : World S) :
  (length buf ≤ 32)%nat →
  SMBus.addr P (Some cv) a w = (Ok None, w1) →
  let fd := Fd (SMBus.f cv) in
  let wcmd := write_block_cmd reg buf in
  let rcmd := read_block_cmd reg (length buf) in
  let wr := sys_ioctl P fd i2cSMBus (ArgPtr wcmd) (kstate w1) in
  let rd := sys_ioctl P fd i2cSMBus (ArgPtr rcmd) (kstate w1) in
  let scratch := copy (ptr rcmd) rd.1.2 in
  (length (ptr wcmd) = length buf + 1)%nat ∧
  ptr wcmd !! 0%nat = Some (Z.of_nat (length buf)) ∧
  drop 1 (ptr wcmd) = buf ∧
  len wcmd = 8 ∧ rw wcmd = 0 ∧ cmd wcmd = reg ∧
  SMBus.WriteBlockData P (Some cv) a reg buf w =
    (Ok (errno_error wr.1.1),
     {| kstate := wr.2;
        trace := trace w1 ++
          [EvIoctl fd 0x0720 (ArgPtr wcmd) wr.1.1 (copy (ptr wcmd) wr.1.2)] |}) ∧
  (length (ptr rcmd) = length buf + 1)%nat ∧
  ptr rcmd !! 0%nat = Some (Z.of_nat (length buf)) ∧
  len rcmd = 8 ∧ rw rcmd = 1 ∧ cmd rcmd = reg ∧
  (length scratch = length buf + 1)%nat ∧
  SMBus.ReadBlockData P (Some cv) a reg buf w =
    (Ok (if decide (rd.1.1 = 0)
         then (take (length buf) (drop 1 scratch), None)
         else (buf, Some (Errno rd.1.1))),
     {| kstate := rd.2;
        trace := trace w1 ++ [EvIoctl fd 0x0720 (ArgPtr rcmd) rd.1.1 scratch] |}).
Proof.
  intros Hlen Haddr fd wcmd rcmd wr rd scratch.
  rewrite addr_run in Haddr. injection Haddr as He Hw1.
  apply errno_error_None in He.
  assert (Hk : kstate w1 =
    (sys_ioctl P fd (select_code (SMBus.force cv)) (ArgInt a) (kstate w)).2)
    by (by rewrite <- Hw1).
  assert (Ht : trace w1 = trace w ++ [select_event fd (SMBus.force cv) a 0])
    by (rewrite <- Hw1; cbn; by rewrite He).
  split_and!; try reflexivity.
  - cbn. lia.
  - rewrite WriteBlockData_transaction by done. rewrite transaction_run.
    rewrite decide_True by done. fold fd. rewrite <- Hk. fold wcmd wr.
    rewrite Ht, <- app_assoc. reflexivity.
  - cbn. rewrite length_replicate. lia.
  - unfold scratch. rewrite length_copy. cbn. rewrite length_replicate. lia.
  - rewrite ReadBlockData_transaction by done. rewrite transaction_run.
    rewrite decide_True by done. fold fd. rewrite <- Hk. fold rcmd rd scratch.
    rewrite Ht, <- app_assoc. unfold errno_error.
    destruct (decide (rd.1.1 = 0)) as [E|E].
    + rewrite decide_False by (intros H; by apply H). reflexivity.
    + rewrite decide_True by done. reflexivity.
Qed.

Lemma block_scratch_buffer_witness :
  (length [1; 2; 3; 4; 5] ≤ 32)%nat ∧
  SMBus.addr (mock healthy) (Some conn0) 0x50 world0 =
    (Ok None, {| kstate := ∅; trace := [select_event 3 false 0x50 0] |}) ∧
  SMBus.WriteBlockData (mock healthy) (Some conn0) 0x50 0x20 [1; 2; 3; 4; 5] world0 =
    (Ok None,
     {| kstate := {[ 0x20 := [5; 1; 2; 3; 4; 5] ]};
        trace := [select_event 3 false 0x50 0;
                  EvIoctl 3 0x0720
                    (ArgPtr (write_block_cmd 0x20 [1; 2; 3; 4; 5])) 0
                    [5; 1; 2; 3; 4; 5]] |}).
Proof.
  assert (H1 : (length [1; 2; 3; 4; 5] ≤ 32)%nat) by (vm_compute; lia).
  assert (H2 : SMBus.addr (mock healthy) (Some conn0) 0x50 world0 =
    (Ok None, {| kstate := ∅; trace := [select_event 3 false 0x50 0] |}))
    by reflexivity.
  split; [exact H1|]. split; [exact H2|].
  exact (proj1 (proj2 (proj2 (proj2 (proj2 (proj2 (proj2
    (block_scratch_buffer (mock healthy) conn0 0x50 0x20 [1; 2; 3; 4; 5]
       world0 _ H1 H2)))))))).
Defined.

(** C3. On a bus that echoes writes, for a buffer of at most 32 bytes,
    [WriteBlockData(addr, reg, buf)] succeeds and a following
    [ReadBlockData(addr, reg, buf2)] with [len(buf2) = len(buf)] succeeds
    and leaves the bytes of [buf] in [buf2], whatever [buf2] held before. *)
Theorem block_round_trip {S} (P : Platform S) last cv a reg
  (buf buf2 : list Z) (w : World S) :
  echo_bus P last →
  (length buf ≤ 32)%nat →
  length buf2 = length buf →
  ∃ w1 w2,
    SMBus.WriteBlockData P (Some cv) a reg buf w = (Ok None, w1) ∧
    SMBus.ReadBlockData P (Some cv) a reg buf2 w1 = (Ok (buf, None), w2).
Proof.
  intros [Hsel Hwr Hrd] Hlen Hlen2.
  rewrite WriteBlockData_transaction by done. rewrite transaction_run.
  destruct (Hsel (Fd (SMBus.f cv)) (SMBus.force cv) a (kstate w)) as [Hs0 Hs1].
  rewrite decide_True by done.
  set (s1 := (sys_ioctl P _ (select_code _) _ (kstate w)).2) in *.
  destruct (Hwr (Fd (SMBus.f cv)) (write_block_cmd reg buf) s1 eq_refl)
    as [Hw0 Hw1].
  rewrite Hw0, errno_error_0.
  set (s2 := (sys_ioctl P _ i2cSMBus _ s1).2) in *.
  eexists _, _. split; [reflexivity|].
  rewrite ReadBlockData_transaction by lia. rewrite transaction_run.
  cbn [kstate].
  destruct (Hsel (Fd (SMBus.f cv)) (SMBus.force cv) a s2) as [Hs2 Hs3].
  rewrite decide_True by done.
  set (s3 := (sys_ioctl P _ (select_code _) _ s2).2) in *.
  rewrite (Hrd (Fd (SMBus.f cv)) (read_block_cmd reg (length buf2)) s3
             (ptr (write_block_cmd reg buf)) eq_refl)
    by (rewrite Hs3; exact Hw1).
  cbn [fst snd]. rewrite errno_error_0.
  rewrite copy_same_length
    by (cbn; rewrite length_replicate; by rewrite Hlen2).
  cbn [ptr write_block_cmd drop]. rewrite Hlen2, firstn_all. reflexivity.
Qed.

Lemma block_round_trip_witness :
  echo_bus (mock healthy) (λ s reg, s !! reg) ∧
  (length [1; 2; 3; 4; 5] ≤ 32)%nat ∧
  length [0; 0; 0; 0; 0] = length [1; 2; 3; 4; 5] ∧
  ∃ w1 w2,
    SMBus.WriteBlockData (mock healthy) (Some conn0) 0x50 0x20
      [1; 2; 3; 4; 5] world0 = (Ok None, w1) ∧
    SMBus.ReadBlockData (mock healthy) (Some conn0) 0x50 0x20
      [0; 0; 0; 0; 0] w1 = (Ok ([1; 2; 3; 4; 5], None), w2).
Proof.
  split; [exact mock_healthy_echo|].
  split; [vm_compute; lia|]. split; [reflexivity|].
  apply (block_round_trip (mock healthy) (λ s reg, s !! reg) conn0 0x50 0x20
           [1; 2; 3; 4; 5] [0; 0; 0; 0; 0] world0 mock_healthy_echo).
  - vm_compute; lia.
  - reflexivity.
Defined.

(** ** Register transactions *)

Section Registers.
Context {S : Type} (P : Platform S).

Lemma ReadReg_txn cv a reg (w : World S) :
  ∃ err mem evs w',
    txn (Fd (SMBus.f cv)) (SMBus.force cv) a (read_byte_cmd reg) err mem evs ∧
    trace w' = trace w ++ evs ∧
    SMBus.ReadReg P (Some cv) a reg w = (Ok (bytes_u8 mem, err), w').
Proof. rewrite ReadReg_transaction. by apply transaction_txn. Qed.

Lemma WriteReg_txn cv a reg v (w : World S) :
  ∃ err mem evs w',
    txn (Fd (SMBus.f cv)) (SMBus.force cv) a (write_byte_cmd reg v) err mem evs ∧
    trace w' = trace w ++ evs ∧
    SMBus.WriteReg P (Some cv) a reg v w = (Ok err, w').
Proof. rewrite WriteReg_transaction. by apply transaction_txn. Qed.

Lemma ReadWord_txn cv a reg (w : World S) :
  ∃ err mem evs w',
    txn (Fd (SMBus.f cv)) (SMBus.force cv) a
      (read_word_cmd (big_endian P) reg) err mem evs ∧
    trace w' = trace w ++ evs ∧
    SMBus.ReadWord P (Some cv) a reg w =
      (Ok (bytes_u16 (big_endian P) mem, err), w').
Proof.
  rewrite ReadWord_transaction. apply transaction_txn.
  intros e. cbn. by destruct (big_endian P).
Qed.

Lemma WriteWord_txn cv a reg v (w : World S) :
  ∃ err mem evs w',
    txn (Fd (SMBus.f cv)) (SMBus.force cv) a
      (write_word_cmd (big_endian P) reg v) err mem evs ∧
    trace w' = trace w ++ evs ∧
    SMBus.WriteWord P (Some cv) a reg v w = (Ok err, w').
Proof. rewrite WriteWord_transaction. by apply transaction_txn. Qed.

End Registers.

(** ** The package against the replay of the platform *)

Section Replay.
Context {S : Type} (P : Platform S).

(** The events of a replayed transaction are those of a [txn]. *)
Lemma txn_run_txn fd force a cmd (s : S) :
  txn fd force a cmd
    (run_result (txn_run P fd force a cmd s)).1
    (run_result (txn_run P fd force a cmd s)).2
    (run_events (txn_run P fd force a cmd s)).
Proof.
  unfold txn_run. case_decide as H; cbn.
  - apply txn_transferred. apply length_copy.
  - by apply txn_select_failed.
Qed.

(** A transaction of the package is the replayed transaction. *)
Lemma transaction_runs {A} cv a cmd (failed : error → A) k (w : World S) :
  (∀ e, failed e = k (Some e) (ptr cmd)) →
  transaction P (Some cv) a cmd failed k w =
  (Ok (k (run_result (txn_run P (Fd (SMBus.f cv)) (SMBus.force cv) a cmd
                        (kstate w))).1
         (run_result (txn_run P (Fd (SMBus.f cv)) (SMBus.force cv) a cmd
                        (kstate w))).2),
   {| kstate := run_state (txn_run P (Fd (SMBus.f cv)) (SMBus.force cv) a cmd
                             (kstate w));
      trace := trace w ++
        run_events (txn_run P (Fd (SMBus.f cv)) (SMBus.force cv) a cmd
                      (kstate w)) |}).
Proof.
  intros Hfailed. rewrite transaction_run. unfold txn_run.
  case_decide; cbn [run_result run_events run_state fst snd]; [done|].
  by rewrite Hfailed.
Qed.

(** The restore loop and [Close]. *)
Lemma Close_range_runs cv kvs (w : World S) :
  SMBus.Close_range P (Some cv) kvs w =
  played w
    {| run_result :=
         (file_Close P (SMBus.f cv)
            (run_state (restore_run P (Fd (SMBus.f cv)) (SMBus.force cv)
                          (SMBus.backupaddr cv) kvs (kstate w)))).1;
       run_events :=
         run_events (restore_run P (Fd (SMBus.f cv)) (SMBus.force cv)
                       (SMBus.backupaddr cv) kvs (kstate w)) ++
         [EvClose (SMBus.f cv)
            (file_Close P (SMBus.f cv)
               (run_state (restore_run P (Fd (SMBus.f cv)) (SMBus.force cv)
                             (SMBus.backupaddr cv) kvs (kstate w)))).1];
       run_state :=
         (file_Close P (SMBus.f cv)
            (run_state (restore_run P (Fd (SMBus.f cv)) (SMBus.force cv)
                          (SMBus.backupaddr cv) kvs (kstate w)))).2 |}.
Proof.
  revert w. induction kvs as [|[k v] rest IH]; intros w.
  - cbn [SMBus.Close_range deref restore_run].
    erewrite bind_ok by reflexivity. by rewrite File_Close_run.
  - cbn [SMBus.Close_range deref restore_run].
    erewrite bind_ok by reflexivity.
    rewrite WriteReg_transaction.
    erewrite bind_ok by (by apply transaction_runs).
    set (t := txn_run P _ _ _ (write_byte_cmd k v) (kstate w)).
    destruct (run_result t).1 as [e|].
    + erewrite bind_ok by reflexivity. rewrite File_Close_run.
      unfold played.
      cbn [kstate trace run_result run_events run_state].
      by rewrite <- app_assoc.
    + rewrite IH. unfold played.
      cbn [kstate trace run_result run_events run_state].
      by rewrite <- !app_assoc.
Qed.

Lemma Close_runs cv (w : World S) :
  SMBus.Close P (Some cv) w = played w (close_run P cv (kstate w)).
Proof.
  unfold SMBus.Close. cbn [deref]. erewrite bind_ok by reflexivity.
  unfold range_map, runtime. erewrite bind_ok by reflexivity.
  apply Close_range_runs.
Qed.

(** The events of a replayed restore are those of the restore loop. *)
Lemma restore_run_restored fd force a kvs (s : S) :
  restored fd force a kvs
    (run_result (restore_run P fd force a kvs s))
    (run_events (restore_run P fd force a kvs s)).
Proof.
  revert s. induction kvs as [|[k v] rest IH]; intros s.
  - constructor.
  - cbn [restore_run].
    pose proof (txn_run_txn fd force a (write_byte_cmd k v) s) as Htxn.
    destruct (run_result (txn_run P fd force a (write_byte_cmd k v) s)).1
      as [e|] eqn:He; cbn [run_result run_events].
    + eapply restored_abandon, Htxn.
    + eapply restored_next; [apply Htxn|apply IH].
Qed.

(** The backup loop of [OpenWithOptions]. *)
Lemma backup_range_runs file force a regs m (w : World S) :
  SMBus.backup_range P
    {| SMBus.f := file; SMBus.force := force;
       SMBus.backupRegs := m; SMBus.backupaddr := a |} a regs w =
  played w (open_backup_run P file force a m regs (kstate w)).
Proof.
  revert m w. induction regs as [|i rest IH]; intros m w.
  - unfold played, open_backup_run. cbn. rewrite app_nil_r. by destruct w.
  - cbn [SMBus.backup_range]. rewrite ReadReg_transaction.
    erewrite bind_ok by (by apply transaction_runs).
    cbn [SMBus.f SMBus.force]. unfold open_backup_run.
    cbn [backup_run].
    set (t := txn_run P (Fd file) force a (read_byte_cmd i) (kstate w)).
    destruct (run_result t).1 as [e|].
    + cbn [run_result run_events run_state snd fst recorded_from foldl].
      rewrite (bind_ok _ _ _ _ _ (Close_runs _ _)).
      unfold played. cbn [kstate trace run_result run_events run_state ret].
      by rewrite <- app_assoc.
    + cbn [SMBus.f SMBus.force SMBus.backupRegs SMBus.backupaddr].
      rewrite IH. unfold open_backup_run. cbn [kstate].
      cbn [run_result run_events run_state snd fst].
      destruct (run_result (backup_run P (Fd file) force a rest (run_state t))).2
        as [e|]; unfold played;
        cbn [kstate trace run_result run_events run_state];
        by rewrite <- !app_assoc.
Qed.

Lemma txn_read_byte_mem fd force a reg mem evs :
  txn fd force a (read_byte_cmd reg) None mem evs → mem = [bytes_u8 mem].
Proof.
  inversion 1 as [|e mem' Hlen He]; subst.
  by destruct mem as [|v [|]].
Qed.

(** What a replayed backup read: every register when no read failed, the
    registers before the failed one otherwise. *)
Lemma backup_run_ok fd force a regs (s : S) :
  (run_result (backup_run P fd force a regs s)).2 = None →
  (run_result (backup_run P fd force a regs s)).1.*1 = regs ∧
  backed_up fd force a (run_result (backup_run P fd force a regs s)).1
    (run_events (backup_run P fd force a regs s)).
Proof.
  revert s. induction regs as [|i rest IH]; intros s.
  - intros _. split; [done|constructor].
  - cbn [backup_run].
    pose proof (txn_run_txn fd force a (read_byte_cmd i) s) as Htxn.
    destruct (run_result (txn_run P fd force a (read_byte_cmd i) s)).1
      as [e|] eqn:He; cbn [run_result run_events fst snd]; [done|].
    intros Hnone. destruct (IH _ Hnone) as [Hregs Hb].
    split; [cbn; by rewrite Hregs|].
    apply backed_up_cons; [|done].
    rewrite <- (txn_read_byte_mem _ _ _ _ _ _ Htxn).
    exact Htxn.
Qed.

Lemma backup_run_failed fd force a regs e (s : S) :
  (run_result (backup_run P fd force a regs s)).2 = Some e →
  ∃ reg rest mem evs0 evf,
    regs = (run_result (backup_run P fd force a regs s)).1.*1 ++ reg :: rest ∧
    run_events (backup_run P fd force a regs s) = evs0 ++ evf ∧
    backed_up fd force a (run_result (backup_run P fd force a regs s)).1 evs0 ∧
    txn fd force a (read_byte_cmd reg) (Some e) mem evf.
Proof.
  revert s. induction regs as [|i rest IH]; intros s.
  - intros H. discriminate H.
  - cbn [backup_run].
    pose proof (txn_run_txn fd force a (read_byte_cmd i) s) as Htxn.
    destruct (run_result (txn_run P fd force a (read_byte_cmd i) s)).1
      as [e'|] eqn:He; cbn [run_result run_events fst snd].
    + intros H. injection H as ->.
      exists i, rest, (run_result (txn_run P fd force a (read_byte_cmd i) s)).2,
        [], (run_events (txn_run P fd force a (read_byte_cmd i) s)).
      split_and!; [done|done|constructor|done].
    + intros Hsome.
      destruct (IH _ Hsome) as (reg & rest' & mem & evs0 & evf & Hregs & Hev & Hb & Hf).
      exists reg, rest', mem,
        (run_events (txn_run P fd force a (read_byte_cmd i) s) ++ evs0), evf.
      split_and!; [| | |done].
      * cbn. by rewrite <- Hregs.
      * by rewrite Hev, app_assoc.
      * apply backed_up_cons; [|done].
        rewrite <- (txn_read_byte_mem _ _ _ _ _ _ Htxn).
        exact Htxn.
Qed.

(** [OpenWithOptions] is the replayed open. *)
Lemma OpenWithOptions_runs bus a opts (w : World S) :
  SMBus.OpenWithOptions P bus a opts w =
  played w (open_run P bus a opts (kstate w)).
Proof.
  unfold SMBus.OpenWithOptions, open_run.
  destruct opts as [o|].
  2:{ unfold played. cbn. rewrite app_nil_r. by destruct w. }
  unfold SMBus.OpenFileWithOptions. cbn [SMBus.BackupRestoreRegs SMBus.Force].
  unfold OpenFile_dev, call. unfold bind at 1 2.
  destruct (os_OpenFile P (dev_path bus) O_RDWR perm0600 (kstate w))
    as [[file|err] s1]; cbn [ret fst snd]; [|reflexivity].
  unfold bind at 1. rewrite addr_run. cbn [SMBus.f SMBus.force kstate trace].
  set (sel := sys_ioctl P (Fd file) (select_code (SMBus.Force o)) (ArgInt a) s1).
  destruct (decide (sel.1.1 = 0)) as [Hsel|Hsel].
  - rewrite Hsel, errno_error_0.
    destruct (SMBus.BackupRestoreRegs o) as [regs|].
    + cbn [deref]. erewrite bind_ok by reflexivity.
      cbn [SMBus.f SMBus.force SMBus.backupRegs].
      rewrite backup_range_runs. unfold played.
      cbn [kstate trace run_result run_events run_state].
      by rewrite <- !app_assoc.
    + unfold played. cbn [ret run_result run_events run_state].
      by rewrite <- app_assoc.
  - rewrite (errno_error_ne _ Hsel).
    rewrite (bind_ok _ _ _ _ _ (Close_runs _ _)). unfold played.
    cbn [kstate trace run_result run_events run_state ret].
    by rewrite <- !app_assoc.
Qed.

End Replay.

(** C4. Each of [ReadReg], [WriteReg], [ReadWord] and [WriteWord] is
    exactly one transaction [one cmd] on the platform, with the byte or
    word command [cmd] of the method.  The address-select ioctl (control
    code 0x0706 when the connection forces, else 0x0703) is put to
    [sys_ioctl] in the state the method starts in.  When its errno is not
    0, that errno is the error returned, the select is the only event and
    the state is the one it left: no transfer is asked.  When it is 0,
    exactly one transfer ioctl (control code 0x0720) is put to [sys_ioctl]
    in the state the select left; its errno decides the error, a read
    returns what it stored behind the command, the two calls are the only
    events, in that order, and the state is the one the transfer left. *)
Theorem register_ops_select_then_transfer {S} (P : Platform S) cv a reg v
  (w : World S) :
  let fd := Fd (SMBus.f cv) in
  let force := SMBus.force cv in
  let be := big_endian P in
  let sel := sys_ioctl P fd (select_code force) (ArgInt a) (kstate w) in
  let one (cmd : i2cCmd) := txn_run P fd force a cmd (kstate w) in
  (select_code true = 0x0706 ∧ select_code false = 0x0703 ∧ i2cSMBus = 0x0720) ∧
  (∀ cmd,
     one cmd =
     if decide (sel.1.1 = 0) then
       let tr := sys_ioctl P fd 0x0720 (ArgPtr cmd) sel.2 in
       {| run_result := (errno_error tr.1.1, copy (ptr cmd) tr.1.2);
          run_events :=
            [EvIoctl fd (select_code force) (ArgInt a) 0 [];
             EvIoctl fd 0x0720 (ArgPtr cmd) tr.1.1 (copy (ptr cmd) tr.1.2)];
          run_state := tr.2 |}
     else
       {| run_result := (Some (Errno sel.1.1), ptr cmd);
          run_events := [EvIoctl fd (select_code force) (ArgInt a) sel.1.1 []];
          run_state := sel.2 |}) ∧
  SMBus.ReadReg P (Some cv) a reg w =
    played w (run_map (λ r, (bytes_u8 r.2, r.1)) (one (read_byte_cmd reg))) ∧
  SMBus.WriteReg P (Some cv) a reg v w =
    played w (run_map fst (one (write_byte_cmd reg v))) ∧
  SMBus.ReadWord P (Some cv) a reg w =
    played w (run_map (λ r, (bytes_u16 be r.2, r.1)) (one (read_word_cmd be reg))) ∧
  SMBus.WriteWord P (Some cv) a reg v w =
    played w (run_map fst (one (write_word_cmd be reg v))).
Proof.
  intros fd force be sel one. split_and!; try reflexivity.
  - by rewrite ReadReg_transaction, transaction_runs.
  - by rewrite WriteReg_transaction, transaction_runs.
  - rewrite ReadWord_transaction, transaction_runs; [done|].
    intros e. cbn. by destruct (big_endian P).
  - by rewrite WriteWord_transaction, transaction_runs.
Qed.

(** ** Opening without an address *)

(** C8. [OpenFileWithOptions] answers a non-empty [BackupRestoreRegs] list
    with the configuration error and no connection, and leaves the world as
    it was: no file is opened and no call is issued.  [OpenFile] itself
    passes no list. *)
Theorem open_file_rejects_backup_list {S} (P : Platform S) bus force r rs
  (w : World S) :
  SMBus.OpenFileWithOptions P bus
    (Some {| SMBus.Force := force; SMBus.BackupRestoreRegs := Some (r :: rs) |}) w =
  (Ok (None, Some (ErrorString
     "option BackupRestoreRegs is not supported with OpenFile()")), w) ∧
  SMBus.OpenFile P bus =
    SMBus.OpenFileWithOptions P bus
      (Some {| SMBus.Force := false; SMBus.BackupRestoreRegs := None |}).
Proof. split; reflexivity. Qed.

(** ** Closing: restore, then release *)

Section Closing.
Context {S : Type} (P : Platform S).

Lemma restored_prefix fd force a kvs done evs :
  restored fd force a kvs done evs → done `prefix_of` kvs.
Proof.
  induction 1 as [|k v rest e mem evs _|k v rest done mem evs evs' _ _ IH].
  - done.
  - apply prefix_nil.
  - by apply prefix_cons.
Qed.

Lemma txn_ioctls fd force a cmd err mem evs :
  txn fd force a cmd err mem evs → Forall (λ e, is_ioctl e = true) evs.
Proof. destruct 1; repeat constructor. Qed.

Lemma restored_ioctls fd force a kvs done evs :
  restored fd force a kvs done evs → Forall (λ e, is_ioctl e = true) evs.
Proof.
  induction 1 as [|k v rest e mem evs H|k v rest done mem evs evs' H _ IH].
  - constructor.
  - eapply txn_ioctls, H.
  - apply Forall_app. split; [eapply txn_ioctls, H|done].
Qed.

Lemma backed_up_ioctls fd force a rvs evs :
  backed_up fd force a rvs evs → Forall (λ e, is_ioctl e = true) evs.
Proof.
  induction 1 as [|reg v rvs evs evs' H _ IH].
  - constructor.
  - apply Forall_app. split; [eapply txn_ioctls, H|done].
Qed.

Lemma restored_stops fd force a kvs done evs :
  restored fd force a kvs done evs →
  done = kvs ∨
  ∃ k v rest e mem evs0 evf,
    kvs = done ++ (k, v) :: rest ∧ evs = evs0 ++ evf ∧
    txn fd force a (write_byte_cmd k v) (Some e) mem evf.
Proof.
  induction 1 as [|k v rest e mem evs H|k v rest done mem evs evs' H _ IH].
  - by left.
  - right. by exists k, v, rest, e, mem, [], evs.
  - destruct IH as [->|(k' & v' & rest' & e & mem' & evs0 & evf & -> & -> & Hf)].
    + by left.
    + right. exists k', v', rest', e, mem', (evs ++ evs0), evf.
      split_and!; [done| |done]. by rewrite app_assoc.
Qed.

(** The restore loop: the pairs handled before it stopped, the events it
    left, and the close of the file that ends it on either path. *)
Lemma Close_range_restored cv kvs (w : World S) :
  ∃ done evs cerr w',
    restored (Fd (SMBus.f cv)) (SMBus.force cv) (SMBus.backupaddr cv)
      kvs done evs ∧
    trace w' = trace w ++ evs ++ [EvClose (SMBus.f cv) cerr] ∧
    SMBus.Close_range P (Some cv) kvs w = (Ok cerr, w').
Proof.
  revert w. induction kvs as [|[k v] rest IH]; intros w.
  - exists [], []. cbn [SMBus.Close_range deref].
    erewrite bind_ok by reflexivity. rewrite File_Close_run.
    eexists _, _. split_and!; [constructor| |reflexivity]. reflexivity.
  - cbn [SMBus.Close_range deref]. erewrite bind_ok by reflexivity.
    destruct (WriteReg_txn P cv (SMBus.backupaddr cv) k v w)
      as (err & mem & evs & w1 & Htxn & Ht & Hrun).
    rewrite (bind_ok _ _ _ _ _ Hrun). destruct err as [e|].
    + erewrite bind_ok by reflexivity. rewrite File_Close_run.
      exists [], evs. eexists _, _. split_and!; [|  |reflexivity].
      * eapply restored_abandon, Htxn.
      * cbn [trace]. by rewrite Ht, <- app_assoc.
    + destruct (IH w1) as (done & evs' & cerr & w' & Hres & Ht' & Hrun').
      exists ((k, v) :: done), (evs ++ evs'), cerr, w'.
      split_and!; [| |done].
      * eapply restored_next; [apply Htxn|done].
      * by rewrite Ht', Ht, <- !app_assoc.
Qed.

Lemma Close_restored cv (w : World S) :
  ∃ done evs cerr w',
    restored (Fd (SMBus.f cv)) (SMBus.force cv) (SMBus.backupaddr cv)
      (map_range P (SMBus.backupRegs cv) (kstate w)) done evs ∧
    trace w' = trace w ++ evs ++ [EvClose (SMBus.f cv) cerr] ∧
    SMBus.Close P (Some cv) w = (Ok cerr, w').
Proof.
  unfold SMBus.Close. cbn [deref]. erewrite bind_ok by reflexivity.
  unfold range_map, runtime. erewrite bind_ok by reflexivity.
  apply Close_range_restored.
Qed.

End Closing.

(** C6. [Close] walks the backup map in the order [kvs] of the platform's
    [range], a permutation of the recorded pairs.  For the pairs in turn it
    puts one [WriteReg] transaction at the backup address to the platform,
    each in the state the one before left ([restore_run]); it goes on to
    the end of [kvs] unless a write fails, and then it asks nothing for the
    pairs after the failed one.  On either path it then calls [file_Close]
    on the file of the connection, in the state the restore left: that
    close is the last event, the state afterwards is the one it left, and
    what [Close] returns is its result, never the error of a restore. *)
Theorem close_restores_then_releases {S} (P : Platform S) cv (w : World S) :
  range_ok P →
  let fd := Fd (SMBus.f cv) in
  let force := SMBus.force cv in
  let ba := SMBus.backupaddr cv in
  let kvs := map_range P (SMBus.backupRegs cv) (kstate w) in
  let r := restore_run P fd force ba kvs (kstate w) in
  let cl := file_Close P (SMBus.f cv) (run_state r) in
  kvs ≡ₚ map_to_list (SMBus.backupRegs cv) ∧
  run_result r `prefix_of` kvs ∧
  restored fd force ba kvs (run_result r) (run_events r) ∧
  (run_result r = kvs ∨
   ∃ k v rest e mem evs0 evf,
     kvs = run_result r ++ (k, v) :: rest ∧ run_events r = evs0 ++ evf ∧
     txn fd force ba (write_byte_cmd k v) (Some e) mem evf) ∧
  SMBus.Close P (Some cv) w =
    (Ok cl.1,
     {| kstate := cl.2;
        trace := trace w ++ run_events r ++ [EvClose (SMBus.f cv) cl.1] |}).
Proof.
  intros Hrange fd force ba kvs r cl.
  pose proof (restore_run_restored P fd force ba kvs (kstate w)) as Hres.
  split_and!.
  - apply Hrange.
  - eapply restored_prefix, Hres.
  - exact Hres.
  - eapply restored_stops, Hres.
  - apply Close_runs.
Qed.

Lemma mock_range_ok sc : range_ok (mock sc).
Proof. intros m s. reflexivity. Qed.

Lemma close_restores_then_releases_witness :
  range_ok (mock healthy) ∧
  run_result (restore_run (mock healthy) 3 false 0x50
                (map_to_list (SMBus.backupRegs conn12))
                (kstate world_scrambled)) = [(2, 9); (1, 7)] ∧
  SMBus.Close (mock healthy) (Some conn12) world_scrambled =
    (Ok None,
     {| kstate := {[ 1 := [7]; 2 := [9]; 4 := [1] ]};
        trace :=
          [select_event 3 false 0x50 0;
           EvIoctl 3 0x0720 (ArgPtr (write_byte_cmd 2 9)) 0 [9];
           select_event 3 false 0x50 0;
           EvIoctl 3 0x0720 (ArgPtr (write_byte_cmd 1 7)) 0 [7];
           EvClose {| Fd := 3 |} None] |}).
Proof.
  split; [apply mock_range_ok|]. split; [vm_compute; reflexivity|].
  exact (proj2 (proj2 (proj2 (proj2
    (close_restores_then_releases (mock healthy) conn12 world_scrambled
       (mock_range_ok healthy)))))).
Defined.

(** ** Opening with a backup list *)

Section Opening.
Context {S : Type} (P : Platform S).

Lemma open_handles_app t evs :
  open_handles (t ++ evs) = foldl handle_step (open_handles t) evs.
Proof. unfold open_handles. apply foldl_app. Qed.

Lemma handle_step_ioctls hs evs :
  Forall (λ e, is_ioctl e = true) evs → foldl handle_step hs evs = hs.
Proof.
  induction 1 as [|e evs He _ IH]; [done|].
  cbn [foldl]. destruct e; try discriminate He. exact IH.
Qed.

Lemma remove_first_head x l : remove_first x (x :: l) = l.
Proof. cbn. by rewrite decide_True. Qed.

Lemma txn_read_byte_ok fd force a reg mem evs :
  txn fd force a (read_byte_cmd reg) None mem evs → mem = [bytes_u8 mem].
Proof.
  inversion 1 as [|e mem' Hlen He]; subst.
  by destruct mem as [|v [|]].
Qed.

Lemma backup_outcome_cons file force a m i v rest res evs1 evs :
  txn (Fd file) force a (read_byte_cmd i) None [v] evs1 →
  backup_outcome P file force a (<[i:=v]> m) rest res evs →
  backup_outcome P file force a m (i :: rest) res (evs1 ++ evs).
Proof.
  intros Htxn Hout.
  destruct Hout as [rvs evs Hb|rvs reg rest e mem evs evf s done evr cerr Hb Hf Hr].
  - apply (backup_done P file force a m ((i, v) :: rvs)).
    by apply backed_up_cons.
  - rewrite app_assoc.
    apply (backup_aborted P file force a m ((i, v) :: rvs) reg rest e mem
             (evs1 ++ evs) evf s done evr cerr); [|done..].
    by apply backed_up_cons.
Qed.

Lemma backup_range_outcome file force a regs m (w : World S) :
  ∃ res evs w',
    backup_outcome P file force a m regs res evs ∧
    trace w' = trace w ++ evs ∧
    SMBus.backup_range P
      {| SMBus.f := file; SMBus.force := force;
         SMBus.backupRegs := m; SMBus.backupaddr := a |} a regs w =
      (Ok res, w').
Proof.
  revert m w. induction regs as [|i rest IH]; intros m w.
  - eexists _, [], w. split_and!; [|by rewrite app_nil_r|reflexivity].
    apply (backup_done P file force a m []). constructor.
  - cbn [SMBus.backup_range].
    set (cv := {| SMBus.f := file; SMBus.force := force;
                  SMBus.backupRegs := m; SMBus.backupaddr := a |}).
    destruct (ReadReg_txn P cv a i w) as (err & mem & evs1 & w1 & Htxn & Ht & Hrun).
    rewrite (bind_ok _ _ _ _ _ Hrun). destruct err as [e|].
    + destruct (Close_restored P cv w1)
        as (done & evr & cerr & w2 & Hres & Ht2 & Hrun2).
      rewrite (bind_ok _ _ _ _ _ Hrun2).
      exists (None, Some e), ([] ++ evs1 ++ evr ++ [EvClose file cerr]), w2.
      split_and!; [| |reflexivity].
      * apply (backup_aborted P file force a m [] i rest e mem [] evs1
                 (kstate w1) done evr cerr); [constructor|done..].
      * rewrite Ht2, Ht. cbn [app SMBus.f cv]. by rewrite <- !app_assoc.
    + pose proof (txn_read_byte_ok _ _ _ _ _ _ Htxn) as Hmem.
      cbn [SMBus.f SMBus.force SMBus.backupRegs SMBus.backupaddr cv].
      destruct (IH (<[i:=bytes_u8 mem]> m) w1)
        as (res & evs & w' & Hout & Ht' & Hrun').
      exists res, (evs1 ++ evs), w'. split_and!; [| |done].
      * apply (backup_outcome_cons _ _ _ _ _ (bytes_u8 mem)); [|done].
        by rewrite <- Hmem.
      * by rewrite Ht', Ht, <- app_assoc.
Qed.

Lemma OpenWithOptions_backup bus a force regs file s1 (w : World S) :
  os_OpenFile P (dev_path bus) O_RDWR perm0600 (kstate w) = (inl file, s1) →
  (sys_ioctl P (Fd file) (select_code force) (ArgInt a) s1).1.1 = 0 →
  ∃ res evs w',
    backup_outcome P file force a ∅ regs res evs ∧
    trace w' = trace w ++
      [EvOpen (dev_path bus) O_RDWR perm0600 (inl file);
       select_event (Fd file) force a 0] ++ evs ∧
    SMBus.OpenWithOptions P bus a
      (Some {| SMBus.Force := force; SMBus.BackupRestoreRegs := Some regs |}) w =
      (Ok res, w').
Proof.
  intros Hopen Hsel.
  unfold SMBus.OpenWithOptions, SMBus.OpenFileWithOptions.
  cbn [SMBus.Force SMBus.BackupRestoreRegs].
  unfold OpenFile_dev, call. unfold bind at 1 2. rewrite Hopen. cbn [ret].
  unfold bind at 1. rewrite addr_run.
  cbn [SMBus.f SMBus.force kstate trace]. rewrite Hsel, errno_error_0.
  cbn [deref]. erewrite bind_ok by reflexivity.
  cbn [SMBus.f SMBus.force SMBus.backupRegs].
  set (w1 := {| kstate := _; trace := _ |}).
  destruct (backup_range_outcome file force a regs ∅ w1)
    as (res & evs & w' & Hout & Ht & Hrun).
  exists res, evs, w'. split_and!; [done| |done].
  rewrite Ht. unfold w1. cbn [trace]. by rewrite <- !app_assoc.
Qed.

End Opening.

(** C5. After the device file is opened and the address selected,
    [OpenWithOptions] with a non-nil backup list reads the listed registers
    at that address in list order: one [ReadReg] transaction per register
    is put to the platform, each in the state the one before left
    ([backup_run]), until the list is exhausted or a read fails.  When all
    reads succeed it returns the connection, which carries the bytes the
    reads stored, and the file stays open.  When a read fails, no read is
    tried after it, no connection is returned, the error is that of the
    failed read, and the connection is closed internally: after the restore
    writes of [Close] the platform's [file_Close] is called on the file
    that was opened, as the last call, and the handles open afterwards are
    those open before. *)
Theorem open_reads_backup_list {S} (P : Platform S) bus a force regs file s1
  (w : World S) :
  os_OpenFile P (dev_path bus) O_RDWR perm0600 (kstate w) = (inl file, s1) →
  (sys_ioctl P (Fd file) (select_code force) (ArgInt a) s1).1.1 = 0 →
  let s2 := (sys_ioctl P (Fd file) (select_code force) (ArgInt a) s1).2 in
  let b := backup_run P (Fd file) force a regs s2 in
  let cv := {| SMBus.f := file; SMBus.force := force;
               SMBus.backupRegs := recorded (run_result b).1;
               SMBus.backupaddr := a |} in
  let head := [EvOpen (dev_path bus) O_RDWR perm0600 (inl file);
               select_event (Fd file) force a 0] in
  let opts := Some {| SMBus.Force := force;
                      SMBus.BackupRestoreRegs := Some regs |} in
  match (run_result b).2 with
  | None =>
    (run_result b).1.*1 = regs ∧
    backed_up (Fd file) force a (run_result b).1 (run_events b) ∧
    SMBus.OpenWithOptions P bus a opts w =
      (Ok (Some cv, None),
       {| kstate := run_state b; trace := trace w ++ head ++ run_events b |}) ∧
    open_handles (trace w ++ head ++ run_events b) =
      file :: open_handles (trace w)
  | Some e =>
    let r := restore_run P (Fd file) force a
               (map_range P (recorded (run_result b).1) (run_state b))
               (run_state b) in
    let cl := file_Close P file (run_state r) in
    (∃ reg rest mem evs0 evf,
       regs = (run_result b).1.*1 ++ reg :: rest ∧
       run_events b = evs0 ++ evf ∧
       backed_up (Fd file) force a (run_result b).1 evs0 ∧
       txn (Fd file) force a (read_byte_cmd reg) (Some e) mem evf) ∧
    Forall (λ ev, is_ioctl ev = true) (run_events r) ∧
    SMBus.OpenWithOptions P bus a opts w =
      (Ok (None, Some e),
       {| kstate := cl.2;
          trace := trace w ++ head ++ run_events b ++ run_events r ++
                   [EvClose file cl.1] |}) ∧
    open_handles (trace w ++ head ++ run_events b ++ run_events r ++
                  [EvClose file cl.1]) = open_handles (trace w)
  end.
Proof.
  intros Hopen Hsel s2 b cv head opts.
  assert (Hrun : SMBus.OpenWithOptions P bus a opts w =
                 played w (open_run P bus a opts (kstate w)))
    by apply OpenWithOptions_runs.
  unfold open_run in Hrun. cbn [opts] in Hrun. rewrite Hopen in Hrun.
  cbn [fst snd SMBus.Force SMBus.BackupRestoreRegs] in Hrun.
  rewrite decide_True in Hrun by done.
  unfold open_backup_run in Hrun. fold s2 in Hrun. fold b in Hrun.
  destruct (run_result b).2 as [e|] eqn:Hb.
  - destruct (backup_run_failed P (Fd file) force a regs e s2 Hb)
      as (reg & rest & mem & evs0 & evf & Hregs & Hev & Hbk & Hf).
    fold b in Hregs, Hev, Hbk.
    pose proof (restore_run_restored P (Fd file) force a
                  (map_range P (recorded (run_result b).1) (run_state b))
                  (run_state b)) as Hres.
    assert (Hiob : Forall (λ ev, is_ioctl ev = true) (run_events b)).
    { rewrite Hev. apply Forall_app.
      split; [eapply backed_up_ioctls, Hbk|eapply txn_ioctls, Hf]. }
    split_and!.
    + by exists reg, rest, mem, evs0, evf.
    + eapply restored_ioctls, Hres.
    + rewrite Hrun. unfold played, close_run.
      cbn [run_result run_events run_state SMBus.f SMBus.force
           SMBus.backupRegs SMBus.backupaddr].
      by rewrite <- ?app_assoc.
    + rewrite open_handles_app, !foldl_app.
      cbn [head foldl handle_step select_event].
      rewrite (handle_step_ioctls _ (run_events b)) by done.
      rewrite (handle_step_ioctls _ (run_events _))
        by (eapply restored_ioctls, Hres).
      cbn [foldl handle_step]. apply remove_first_head.
  - destruct (backup_run_ok P (Fd file) force a regs s2 Hb) as [Hregs Hbk].
    fold b in Hregs, Hbk. split_and!; [done|done| |].
    + rewrite Hrun. unfold played. cbn [run_result run_events run_state].
      by rewrite <- ?app_assoc.
    + rewrite open_handles_app, !foldl_app.
      cbn [head foldl handle_step select_event].
      apply handle_step_ioctls. eapply backed_up_ioctls, Hbk.
Qed.

Lemma open_reads_backup_list_witness :
  os_OpenFile (mock unreadable3) (dev_path 1) O_RDWR perm0600 (kstate world79) =
    (inl {| Fd := 3 |}, kstate world79) ∧
  (sys_ioctl (mock unreadable3) 3 (select_code false) (ArgInt 0x50)
     (kstate world79)).1.1 = 0 ∧
  run_result (backup_run (mock unreadable3) 3 false 0x50 [1; 2; 3]
                (kstate world79)) = ([(1, 7); (2, 9)], Some (Errno EIO)) ∧
  SMBus.OpenWithOptions (mock unreadable3) 1 0x50
    (Some {| SMBus.Force := false;
             SMBus.BackupRestoreRegs := Some [1; 2; 3] |}) world79 =
    (Ok (None, Some (Errno EIO)),
     {| kstate := kstate world79;
        trace :=
          [EvOpen "/dev/i2c-1" O_RDWR perm0600 (inl {| Fd := 3 |});
           select_event 3 false 0x50 0;
           select_event 3 false 0x50 0;
           EvIoctl 3 0x0720 (ArgPtr (read_byte_cmd 1)) 0 [7];
           select_event 3 false 0x50 0;
           EvIoctl 3 0x0720 (ArgPtr (read_byte_cmd 2)) 0 [9];
           select_event 3 false 0x50 0;
           EvIoctl 3 0x0720 (ArgPtr (read_byte_cmd 3)) EIO [0];
           select_event 3 false 0x50 0;
           EvIoctl 3 0x0720 (ArgPtr (write_byte_cmd 2 9)) 0 [9];
           select_event 3 false 0x50 0;
           EvIoctl 3 0x0720 (ArgPtr (write_byte_cmd 1 7)) 0 [7];
           EvClose {| Fd := 3 |} None] |}).
Proof.
  split; [reflexivity|]. split; [reflexivity|].
  split; [vm_compute; reflexivity|].
  exact (proj1 (proj2 (proj2
    (open_reads_backup_list (mock unreadable3) 1 0x50 false [1; 2; 3]
       {| Fd := 3 |} (kstate world79) world79 eq_refl eq_refl)))).
Defined.

(** ** The aborted open *)

Section Aborted.
Context {S : Type} (P : Platform S).

Lemma txn_write_byte_ok fd force a k v mem evs :
  txn fd force a (write_byte_cmd k v) None mem evs →
  written_back fd k v evs.
Proof.
  inversion 1 as [|e mem' Hlen He]; subst.
  exists e, mem. apply elem_of_cons. right. apply elem_of_cons. by left.
Qed.

Lemma written_back_app fd k v t1 t2 :
  written_back fd k v t1 ∨ written_back fd k v t2 →
  written_back fd k v (t1 ++ t2).
Proof.
  intros [(e & mem & H)|(e & mem & H)]; exists e, mem;
    apply elem_of_app; [by left|by right].
Qed.

Lemma restored_written_back fd force a kvs done evs k v :
  restored fd force a kvs done evs →
  (k, v) ∈ done → written_back fd k v evs.
Proof.
  induction 1 as [|k' v' rest e mem evs H|k' v' rest done mem evs evs' H _ IH];
    intros Hin.
  - by apply elem_of_nil in Hin.
  - by apply elem_of_nil in Hin.
  - apply written_back_app. apply elem_of_cons in Hin as [Heq|Hin].
    + left. injection Heq as -> ->. eapply txn_write_byte_ok, H.
    + right. by apply IH.
Qed.

End Aborted.

(** C10, as stated, fails.  On an adapter whose register 3 cannot be read
    and whose registers cannot be written, opening with the backup list
    [1; 2; 3] records registers 1 and 2, aborts on register 3, and the
    internal [Close] tries to write register 2 back, fails, and closes the
    file: the value recorded for register 1 is never written back. *)
Lemma aborted_open_abandons_restore :
  SMBus.OpenWithOptions (mock read_only) 1 0x50
    (Some {| SMBus.Force := false;
             SMBus.BackupRestoreRegs := Some [1; 2; 3] |}) world0 =
  (Ok (None, Some (Errno EIO)),
   {| kstate := ∅;
      trace :=
        [EvOpen "/dev/i2c-1" O_RDWR perm0600 (inl {| Fd := 3 |});
         select_event 3 false 0x50 0;
         select_event 3 false 0x50 0;
         EvIoctl 3 0x0720 (ArgPtr (read_byte_cmd 1)) 0 [0];
         select_event 3 false 0x50 0;
         EvIoctl 3 0x0720 (ArgPtr (read_byte_cmd 2)) 0 [0];
         select_event 3 false 0x50 0;
         EvIoctl 3 0x0720 (ArgPtr (read_byte_cmd 3)) EIO [0];
         select_event 3 false 0x50 0;
         EvIoctl 3 0x0720 (ArgPtr (write_byte_cmd 2 0)) EIO [0];
         EvClose {| Fd := 3 |} None] |}) ∧
  recorded [(1, 0); (2, 0)] !! 1 = Some 0 ∧
  ¬ written_back 3 1 0
      (trace (SMBus.OpenWithOptions (mock read_only) 1 0x50
                (Some {| SMBus.Force := false;
                         SMBus.BackupRestoreRegs := Some [1; 2; 3] |})
                world0).2).
Proof.
  assert (Hrun : SMBus.OpenWithOptions (mock read_only) 1 0x50
    (Some {| SMBus.Force := false;
             SMBus.BackupRestoreRegs := Some [1; 2; 3] |}) world0 =
  (Ok (None, Some (Errno EIO)),
   {| kstate := ∅;
      trace :=
        [EvOpen "/dev/i2c-1" O_RDWR perm0600 (inl {| Fd := 3 |});
         select_event 3 false 0x50 0;
         select_event 3 false 0x50 0;
         EvIoctl 3 0x0720 (ArgPtr (read_byte_cmd 1)) 0 [0];
         select_event 3 false 0x50 0;
         EvIoctl 3 0x0720 (ArgPtr (read_byte_cmd 2)) 0 [0];
         select_event 3 false 0x50 0;
         EvIoctl 3 0x0720 (ArgPtr (read_byte_cmd 3)) EIO [0];
         select_event 3 false 0x50 0;
         EvIoctl 3 0x0720 (ArgPtr (write_byte_cmd 2 0)) EIO [0];
         EvClose {| Fd := 3 |} None] |})) by (vm_compute; reflexivity).
  split; [exact Hrun|]. split; [by vm_compute|].
  rewrite Hrun. intros (e & mem & Hin). cbn [snd trace] in Hin.
  apply list_elem_of_In in Hin.
  cbv in Hin. intuition congruence.
Qed.

(** C10, amended.  When [OpenWithOptions] has opened the file and selected
    the address and then returns no connection, a backup read has failed
    after the reads of the registers before it succeeded ([backup_run]).
    The internal [Close] then walks the map recorded from those reads in
    the order [kvs] of [range] and puts one [WriteReg] transaction per
    pair to the platform, each in the state the one before left
    ([restore_run]), until [kvs] is exhausted or a write fails; the pairs
    after a failed write are not written.  Last, the platform's
    [file_Close] is called on the file, in the state the restore left.
    Every pair written has its write transfer in the trace, so the aborted
    open can produce writes on the bus. *)
Theorem aborted_open_restores_recorded {S} (P : Platform S) bus a force regs
  file s1 e (w w' : World S) :
  range_ok P →
  os_OpenFile P (dev_path bus) O_RDWR perm0600 (kstate w) = (inl file, s1) →
  (sys_ioctl P (Fd file) (select_code force) (ArgInt a) s1).1.1 = 0 →
  SMBus.OpenWithOptions P bus a
    (Some {| SMBus.Force := force; SMBus.BackupRestoreRegs := Some regs |}) w =
    (Ok (None, Some e), w') →
  let s2 := (sys_ioctl P (Fd file) (select_code force) (ArgInt a) s1).2 in
  let b := backup_run P (Fd file) force a regs s2 in
  let kvs := map_range P (recorded (run_result b).1) (run_state b) in
  let r := restore_run P (Fd file) force a kvs (run_state b) in
  let cl := file_Close P file (run_state r) in
  (run_result b).2 = Some e ∧
  (∃ reg rest mem evs0 evf,
     regs = (run_result b).1.*1 ++ reg :: rest ∧
     run_events b = evs0 ++ evf ∧
     backed_up (Fd file) force a (run_result b).1 evs0 ∧
     txn (Fd file) force a (read_byte_cmd reg) (Some e) mem evf) ∧
  kvs ≡ₚ map_to_list (recorded (run_result b).1) ∧
  restored (Fd file) force a kvs (run_result r) (run_events r) ∧
  (run_result r = kvs ∨
   ∃ k v rest' e' mem' evs1 evf',
     kvs = run_result r ++ (k, v) :: rest' ∧ run_events r = evs1 ++ evf' ∧
     txn (Fd file) force a (write_byte_cmd k v) (Some e') mem' evf') ∧
  w' = {| kstate := cl.2;
          trace := trace w ++
            [EvOpen (dev_path bus) O_RDWR perm0600 (inl file);
             select_event (Fd file) force a 0] ++
            run_events b ++ run_events r ++ [EvClose file cl.1] |} ∧
  (∀ k v, (k, v) ∈ run_result r → written_back (Fd file) k v (trace w')).
Proof.
  intros Hrange Hopen Hsel Hrun s2 b kvs r cl.
  rewrite OpenWithOptions_runs in Hrun. unfold open_run in Hrun.
  rewrite Hopen in Hrun.
  cbn [fst snd SMBus.Force SMBus.BackupRestoreRegs] in Hrun.
  rewrite decide_True in Hrun by done.
  unfold open_backup_run in Hrun. fold s2 in Hrun. fold b in Hrun.
  destruct (run_result b).2 as [e0|] eqn:Hb; [|discriminate Hrun].
  unfold played, close_run in Hrun.
  cbn [run_result run_events run_state SMBus.f SMBus.force
       SMBus.backupRegs SMBus.backupaddr] in Hrun.
  fold (recorded (run_result b).1) in Hrun. fold kvs in Hrun. fold r in Hrun.
  fold cl in Hrun. injection Hrun as -> <-.
  pose proof (restore_run_restored P (Fd file) force a kvs (run_state b))
    as Hres. fold r in Hres.
  split_and!.
  - done.
  - destruct (backup_run_failed P (Fd file) force a regs e s2 Hb)
      as (reg & rest & mem & evs0 & evf & H).
    by exists reg, rest, mem, evs0, evf.
  - apply Hrange.
  - exact Hres.
  - eapply restored_stops, Hres.
  - by rewrite <- ?app_assoc.
  - intros k v Hin.
    destruct (restored_written_back _ _ _ _ _ _ _ _ Hres Hin)
      as (e1 & mem1 & Hev).
    exists e1, mem1. cbn [trace].
    apply elem_of_app. right. apply elem_of_cons. right.
    apply elem_of_cons. right. apply elem_of_app. right.
    apply elem_of_app. by left.
Qed.

Lemma aborted_open_restores_recorded_witness :
  range_ok (mock unreadable3) ∧
  os_OpenFile (mock unreadable3) (dev_path 1) O_RDWR perm0600 (kstate world79) =
    (inl {| Fd := 3 |}, kstate world79) ∧
  (sys_ioctl (mock unreadable3) 3 (select_code false) (ArgInt 0x50)
     (kstate world79)).1.1 = 0 ∧
  SMBus.OpenWithOptions (mock unreadable3) 1 0x50
    (Some {| SMBus.Force := false;
             SMBus.BackupRestoreRegs := Some [1; 2; 3] |}) world79 =
    (Ok (None, Some (Errno EIO)),
     {| kstate := kstate world79;
        trace :=
          [EvOpen "/dev/i2c-1" O_RDWR perm0600 (inl {| Fd := 3 |});
           select_event 3 false 0x50 0;
           select_event 3 false 0x50 0;
           EvIoctl 3 0x0720 (ArgPtr (read_byte_cmd 1)) 0 [7];
           select_event 3 false 0x50 0;
           EvIoctl 3 0x0720 (ArgPtr (read_byte_cmd 2)) 0 [9];
           select_event 3 false 0x50 0;
           EvIoctl 3 0x0720 (ArgPtr (read_byte_cmd 3)) EIO [0];
           select_event 3 false 0x50 0;
           EvIoctl 3 0x0720 (ArgPtr (write_byte_cmd 2 9)) 0 [9];
           select_event 3 false 0x50 0;
           EvIoctl 3 0x0720 (ArgPtr (write_byte_cmd 1 7)) 0 [7];
           EvClose {| Fd := 3 |} None] |}) ∧
  run_result
    (restore_run (mock unreadable3) 3 false 0x50
       (map_to_list (recorded [(1, 7); (2, 9)])) (kstate world79)) =
    [(2, 9); (1, 7)] ∧
  ∀ k v, (k, v) ∈ [(2, 9); (1, 7)] →
    written_back 3 k v
      (trace (SMBus.OpenWithOptions (mock unreadable3) 1 0x50
                (Some {| SMBus.Force := false;
                         SMBus.BackupRestoreRegs := Some [1; 2; 3] |})
                world79).2).
Proof.
  split; [apply mock_range_ok|]. split; [reflexivity|]. split; [reflexivity|].
  split; [vm_compute; reflexivity|]. split; [vm_compute; reflexivity|].
  exact (proj2 (proj2 (proj2 (proj2 (proj2 (proj2
    (aborted_open_restores_recorded (mock unreadable3) 1 0x50 false
       [1; 2; 3] {| Fd := 3 |} (kstate world79) (Errno EIO) world79
       (SMBus.OpenWithOptions (mock unreadable3) 1 0x50
          (Some {| SMBus.Force := false;
                   SMBus.BackupRestoreRegs := Some [1; 2; 3] |}) world79).2
       (mock_range_ok unreadable3) eq_refl eq_refl
       ltac:(vm_compute; reflexivity)))))))).
Defined.

(** ** Panics *)

Section Panics.
Context {S : Type} (P : Platform S).

Lemma transaction_never_panics {A} cv a cmd (failed : error → A) k :
  never_panics (transaction P (Some cv) a cmd failed k).
Proof.
  intros w. rewrite transaction_run. case_decide; by eexists _, _.
Qed.

Lemma ReadBlockData_never_panics cv a reg buf :
  never_panics (SMBus.ReadBlockData P (Some cv) a reg buf).
Proof.
  intros w. destruct (decide (length buf ≤ 32)%nat) as [Hlen|Hlen].
  - rewrite ReadBlockData_transaction by done.
    apply transaction_never_panics.
  - unfold SMBus.ReadBlockData.
    rewrite decide_True by (unfold i2cSMBusBlockMax; lia). by eexists _, _.
Qed.

Lemma WriteBlockData_never_panics cv a reg buf :
  never_panics (SMBus.WriteBlockData P (Some cv) a reg buf).
Proof.
  intros w. destruct (decide (length buf ≤ 32)%nat) as [Hlen|Hlen].
  - rewrite WriteBlockData_transaction by done.
    apply transaction_never_panics.
  - unfold SMBus.WriteBlockData.
    rewrite decide_True by (unfold i2cSMBusBlockMax; lia). by eexists _, _.
Qed.

Lemma Close_never_panics cv : never_panics (SMBus.Close P (Some cv)).
Proof.
  intros w. destruct (Close_restored P cv w) as (_ & _ & cerr & w' & _ & _ & H).
  by exists cerr, w'.
Qed.

Lemma call_never_panics {A} (step : S → A * S) ev : never_panics (call step ev).
Proof. intros w. unfold call. destruct (step (kstate w)). by eexists _, _. Qed.

Lemma OpenFileWithOptions_never_panics bus opts :
  never_panics (SMBus.OpenFileWithOptions P bus opts).
Proof.
  intros w. unfold SMBus.OpenFileWithOptions.
  destruct opts as [[fc [[|r rs]|]]|]; cbn [SMBus.BackupRestoreRegs];
    try (by eexists _, _);
    (destruct (call_never_panics
                 (os_OpenFile P (dev_path bus) O_RDWR perm0600)
                 (EvOpen (dev_path bus) O_RDWR perm0600) w) as (r' & w' & Hr);
     unfold OpenFile_dev; rewrite (bind_ok _ _ _ _ _ Hr);
     destruct r'; by eexists _, _).
Qed.

Lemma OpenWithOptions_never_panics bus a opts :
  never_panics (SMBus.OpenWithOptions P bus a opts).
Proof.
  intros w. unfold SMBus.OpenWithOptions.
  destruct opts as [o|]; [|by eexists _, _].
  unfold SMBus.OpenFileWithOptions. cbn [SMBus.BackupRestoreRegs SMBus.Force].
  unfold OpenFile_dev, call. unfold bind at 1 2.
  destruct (os_OpenFile P (dev_path bus) O_RDWR perm0600 (kstate w))
    as [[file|err] s1]; cbn [ret]; [|by eexists _, _].
  unfold bind at 1. rewrite addr_run. cbn [SMBus.f SMBus.force kstate trace].
  destruct (errno_error _) as [e|].
  - set (w1 := {| kstate := _; trace := _ |}).
    destruct (Close_never_panics
                {| SMBus.f := file; SMBus.force := SMBus.Force o;
                   SMBus.backupRegs := ∅; SMBus.backupaddr := 0 |} w1)
      as (cerr & w2 & Hc).
    rewrite (bind_ok _ _ _ _ _ Hc). by eexists _, _.
  - destruct (SMBus.BackupRestoreRegs o) as [regs|]; [|by eexists _, _].
    cbn [deref]. erewrite bind_ok by reflexivity.
    cbn [SMBus.f SMBus.force SMBus.backupRegs].
    set (w1 := {| kstate := _; trace := _ |}).
    destruct (backup_range_outcome P file (SMBus.Force o) a regs ∅ w1)
      as (res & evs & w' & _ & _ & Hrun).
    by exists res, w'.
Qed.

End Panics.

(** C7, as stated, fails: a nil options pointer does not make
    [OpenWithOptions] or [OpenFileWithOptions] panic; both return the error
    [opts is nil] and issue no call. *)
Lemma nil_options_do_not_panic :
  SMBus.OpenWithOptions (mock healthy) 1 0x50 None world0 =
    (Ok (None, Some (ErrorString "opts is nil")), world0) ∧
  SMBus.OpenFileWithOptions (mock healthy) 1 None world0 =
    (Ok (None, Some (ErrorString "opts is nil")), world0) ∧
  ¬ (∃ msg w', SMBus.OpenWithOptions (mock healthy) 1 0x50 None world0 =
                 (Panic msg, w')) ∧
  ¬ (∃ msg w', SMBus.OpenFileWithOptions (mock healthy) 1 None world0 =
                 (Panic msg, w')).
Proof.
  split_and!; try reflexivity; intros (msg & w' & H); discriminate H.
Qed.

(** C7, amended.  No public operation panics, whatever the platform
    answers and whatever the arguments are: the four open functions for
    every options pointer, nil included, and every method called on a
    connection.  A nil options pointer is answered by the error
    [opts is nil], with no call issued.  The panic path is programmer
    misuse of another kind: a method called through a nil connection
    pointer panics as soon as it touches the connection. *)
Theorem no_panic_on_expected_failures {S} (P : Platform S) bus a reg v b buf
  opts cv :
  (never_panics (SMBus.OpenFileWithOptions P bus opts) ∧
   never_panics (SMBus.OpenFile P bus) ∧
   never_panics (SMBus.OpenWithOptions P bus a opts) ∧
   never_panics (SMBus.Open P bus a)) ∧
  ((∀ w, SMBus.OpenFileWithOptions P bus None w =
           (Ok (None, Some (ErrorString "opts is nil")), w)) ∧
   (∀ w, SMBus.OpenWithOptions P bus a None w =
           (Ok (None, Some (ErrorString "opts is nil")), w))) ∧
  (never_panics (SMBus.Write P (Some cv) buf) ∧
   never_panics (SMBus.WriteByte P (Some cv) b) ∧
   never_panics (SMBus.Read P (Some cv) buf) ∧
   never_panics (SMBus.ReadReg P (Some cv) a reg) ∧
   never_panics (SMBus.WriteReg P (Some cv) a reg v) ∧
   never_panics (SMBus.ReadWord P (Some cv) a reg) ∧
   never_panics (SMBus.WriteWord P (Some cv) a reg v) ∧
   never_panics (SMBus.ReadBlockData P (Some cv) a reg buf) ∧
   never_panics (SMBus.WriteBlockData P (Some cv) a reg buf) ∧
   never_panics (SMBus.SetAddr P (Some cv) a) ∧
   never_panics (SMBus.Close P (Some cv))) ∧
  (panics (SMBus.Write P None buf) ∧
   panics (SMBus.WriteByte P None b) ∧
   panics (SMBus.Read P None buf) ∧
   panics (SMBus.ReadReg P None a reg) ∧
   panics (SMBus.WriteReg P None a reg v) ∧
   panics (SMBus.ReadWord P None a reg) ∧
   panics (SMBus.WriteWord P None a reg v) ∧
   panics (SMBus.SetAddr P None a) ∧
   panics (SMBus.Close P None)).
Proof.
  split_and!; try (intros w; reflexivity);
    try (intros w; eexists; reflexivity).
  - apply OpenFileWithOptions_never_panics.
  - apply OpenFileWithOptions_never_panics.
  - apply OpenWithOptions_never_panics.
  - apply OpenWithOptions_never_panics.
  - intros w. unfold SMBus.Write. cbn [deref]. erewrite bind_ok by reflexivity.
    apply call_never_panics.
  - intros w. unfold SMBus.WriteByte. erewrite !bind_ok by reflexivity.
    apply call_never_panics.
  - intros w. unfold SMBus.Read, File_Read. cbn [deref].
    erewrite bind_ok by reflexivity.
    destruct (call_never_panics (file_Read P (SMBus.f cv) (length buf))
      (λ r, EvRead (SMBus.f cv) (length buf) r.1.2 r.2) w) as ([[got n] err] & w' & H).
    rewrite (bind_ok _ _ _ _ _ H). by eexists _, _.
  - rewrite ReadReg_transaction. apply transaction_never_panics.
  - rewrite WriteReg_transaction. apply transaction_never_panics.
  - rewrite ReadWord_transaction. apply transaction_never_panics.
  - rewrite WriteWord_transaction. apply transaction_never_panics.
  - apply ReadBlockData_never_panics.
  - apply WriteBlockData_never_panics.
  - intros w. unfold SMBus.SetAddr. rewrite addr_run. by eexists _, _.
  - apply Close_never_panics.
Qed.

(** ** The legacy package against the package with options *)

Section LegacyComparison.
Context {S : Type} (P : Platform S).

(** The register methods and the raw reads and writes are the same
    computations. *)
Lemma legacy_ReadReg_same ba c a reg :
  Legacy.ReadReg P c a reg = SMBus.ReadReg P (upgrade ba <$> c) a reg.
Proof. by destruct c. Qed.

Lemma legacy_WriteReg_same ba c a reg v :
  Legacy.WriteReg P c a reg v = SMBus.WriteReg P (upgrade ba <$> c) a reg v.
Proof. by destruct c. Qed.

Lemma legacy_ReadWord_same ba c a reg :
  Legacy.ReadWord P c a reg = SMBus.ReadWord P (upgrade ba <$> c) a reg.
Proof. by destruct c. Qed.

Lemma legacy_WriteWord_same ba c a reg v :
  Legacy.WriteWord P c a reg v = SMBus.WriteWord P (upgrade ba <$> c) a reg v.
Proof. by destruct c. Qed.

Lemma legacy_Write_same ba c buf :
  Legacy.Write P c buf = SMBus.Write P (upgrade ba <$> c) buf.
Proof. by destruct c. Qed.

Lemma legacy_WriteByte_same ba c b :
  Legacy.WriteByte P c b = SMBus.WriteByte P (upgrade ba <$> c) b.
Proof. by destruct c. Qed.

Lemma legacy_Read_same ba c p :
  Legacy.Read P c p = SMBus.Read P (upgrade ba <$> c) p.
Proof. by destruct c. Qed.

(** [Close] is the same once [range] over the empty map visits nothing. *)
Lemma legacy_Close_same ba c (w : World S) :
  range_ok P →
  Legacy.Close P c w = SMBus.Close P (upgrade ba <$> c) w.
Proof.
  intros Hrange. destruct c as [c|]; [|reflexivity].
  unfold SMBus.Close, Legacy.Close. cbn [fmap option_fmap option_map deref].
  erewrite !bind_ok by reflexivity.
  cbn [upgrade SMBus.backupRegs].
  pose proof (Hrange ∅ (kstate w)) as Hperm.
  rewrite map_to_list_empty in Hperm. apply Permutation_nil_r in Hperm.
  rewrite Hperm. cbn [SMBus.Close_range deref].
  by erewrite bind_ok by reflexivity.
Qed.

Lemma OpenFile_dev_run bus (w : World S) :
  OpenFile_dev P bus w =
  (Ok (os_OpenFile P (dev_path bus) O_RDWR perm0600 (kstate w)).1,
   {| kstate := (os_OpenFile P (dev_path bus) O_RDWR perm0600 (kstate w)).2;
      trace := trace w ++
        [EvOpen (dev_path bus) O_RDWR perm0600
           (os_OpenFile P (dev_path bus) O_RDWR perm0600 (kstate w)).1] |}).
Proof.
  unfold OpenFile_dev, call.
  by destruct (os_OpenFile P (dev_path bus) O_RDWR perm0600 (kstate w)).
Qed.

Lemma OpenFileWithOptions_run bus fc (w : World S) :
  SMBus.OpenFileWithOptions P bus
    (Some {| SMBus.Force := fc; SMBus.BackupRestoreRegs := None |}) w =
  (Ok match (os_OpenFile P (dev_path bus) O_RDWR perm0600 (kstate w)).1 with
      | inl file => (Some {| SMBus.f := file; SMBus.force := fc;
                             SMBus.backupRegs := ∅; SMBus.backupaddr := 0 |},
                     None)
      | inr err => (None, Some err)
      end,
   {| kstate := (os_OpenFile P (dev_path bus) O_RDWR perm0600 (kstate w)).2;
      trace := trace w ++
        [EvOpen (dev_path bus) O_RDWR perm0600
           (os_OpenFile P (dev_path bus) O_RDWR perm0600 (kstate w)).1] |}).
Proof.
  unfold SMBus.OpenFileWithOptions. cbn [SMBus.BackupRestoreRegs SMBus.Force].
  rewrite (bind_ok _ _ _ _ _ (OpenFile_dev_run bus w)).
  by destruct (os_OpenFile P (dev_path bus) O_RDWR perm0600 (kstate w)).1.
Qed.

(** [Open] is the same when the file cannot be opened and when the address
    is selected. *)
Lemma legacy_Open_same bus a (w : World S) :
  (∀ file s1,
     os_OpenFile P (dev_path bus) O_RDWR perm0600 (kstate w) = (inl file, s1) →
     (sys_ioctl P (Fd file) i2cSlave (ArgInt a) s1).1.1 = 0) →
  SMBus.Open P bus a w =
  match Legacy.Open P bus a w with
  | (Ok (c, err), w') => (Ok (upgrade a <$> c, err), w')
  | (Panic msg, w') => (Panic msg, w')
  end.
Proof.
  intros Hsel.
  unfold SMBus.Open, SMBus.OpenWithOptions, Legacy.Open.
  cbn [SMBus.BackupRestoreRegs SMBus.Force].
  rewrite (bind_ok _ _ _ _ _ (OpenFileWithOptions_run bus false w)).
  rewrite (bind_ok _ _ _ _ _ (OpenFile_dev_run bus w)).
  destruct (os_OpenFile P (dev_path bus) O_RDWR perm0600 (kstate w))
    as [[file|err] s1] eqn:Hopen; cbn [fst snd]; [|reflexivity].
  specialize (Hsel file s1 eq_refl).
  unfold bind at 1. rewrite addr_run.
  cbn [SMBus.f SMBus.force kstate trace select_code].
  rewrite Hsel, errno_error_0.
  unfold bind at 2. rewrite ioctl_run. cbn [kstate trace].
  rewrite Hsel, errno_error_0. reflexivity.
Qed.

(** When the address cannot be selected the two differ: the package with
    options goes on to close the file, the legacy package returns at
    once. *)
Lemma Open_select_failed bus a file s1 (w : World S) :
  range_ok P →
  os_OpenFile P (dev_path bus) O_RDWR perm0600 (kstate w) = (inl file, s1) →
  (sys_ioctl P (Fd file) i2cSlave (ArgInt a) s1).1.1 ≠ 0 →
  let r := sys_ioctl P (Fd file) i2cSlave (ArgInt a) s1 in
  let evs := [EvOpen (dev_path bus) O_RDWR perm0600 (inl file);
              select_event (Fd file) false a r.1.1] in
  Legacy.Open P bus a w =
    (Ok (None, Some (Errno r.1.1)),
     {| kstate := r.2; trace := trace w ++ evs |}) ∧
  SMBus.Open P bus a w =
    (Ok (None, Some (Errno r.1.1)),
     {| kstate := (file_Close P file r.2).2;
        trace := trace w ++ evs ++ [EvClose file (file_Close P file r.2).1] |}).
Proof.
  intros Hrange Hopen Hsel r evs. subst r evs. split.
  - unfold Legacy.Open.
    rewrite (bind_ok _ _ _ _ _ (OpenFile_dev_run bus w)). rewrite Hopen.
    cbn [fst snd]. unfold bind. rewrite ioctl_run. cbn [kstate trace mem_after].
    rewrite (errno_error_ne _ Hsel). unfold select_event.
    by rewrite <- app_assoc.
  - unfold SMBus.Open, SMBus.OpenWithOptions.
    cbn [SMBus.BackupRestoreRegs SMBus.Force].
    rewrite (bind_ok _ _ _ _ _ (OpenFileWithOptions_run bus false w)).
    rewrite Hopen. cbn [fst snd].
    unfold bind at 1. rewrite addr_run.
    cbn [SMBus.f SMBus.force kstate trace select_code].
    rewrite (errno_error_ne _ Hsel).
    set (w1 := {| kstate := _; trace := _ |}).
    pose proof (legacy_Close_same 0 (Some {| Legacy.f := file |}) w1 Hrange)
      as Hclose.
    cbn [fmap option_fmap option_map] in Hclose.
    unfold upgrade in Hclose. cbn [Legacy.f] in Hclose.
    unfold bind. rewrite <- Hclose.
    unfold Legacy.Close. cbn [deref Legacy.f].
    erewrite (bind_ok (ret _)) by reflexivity.
    rewrite File_Close_run. cbn [ret kstate trace w1].
    unfold select_event, select_code. by rewrite <- !app_assoc.
Qed.

End LegacyComparison.

(** C9 at the input where the two packages part.  The address is claimed
    by a kernel driver, so the address-select ioctl fails with [EBUSY].
    Both [Open] functions return no connection and that error after the
    same two calls, but the legacy one stops there and leaves the file it
    opened open, while the one with options closes it. *)
Theorem legacy_open_leaks_handle :
  Legacy.Open (mock busy) 1 0x50 world0 =
    (Ok (None, Some (Errno EBUSY)),
     {| kstate := ∅;
        trace := [EvOpen "/dev/i2c-1" O_RDWR perm0600 (inl {| Fd := 3 |});
                  EvIoctl 3 0x0703 (ArgInt 0x50) EBUSY []] |}) ∧
  SMBus.Open (mock busy) 1 0x50 world0 =
    (Ok (None, Some (Errno EBUSY)),
     {| kstate := ∅;
        trace := [EvOpen "/dev/i2c-1" O_RDWR perm0600 (inl {| Fd := 3 |});
                  EvIoctl 3 0x0703 (ArgInt 0x50) EBUSY [];
                  EvClose {| Fd := 3 |} None] |}) ∧
  open_handles (trace (Legacy.Open (mock busy) 1 0x50 world0).2) =
    [{| Fd := 3 |}] ∧
  open_handles (trace (SMBus.Open (mock busy) 1 0x50 world0).2) = [].
Proof. split_and!; vm_compute; reflexivity. Qed.

(** ** Scenarios on the scripted adapter *)

(** [Open(1, 0x50)], [WriteReg(0x50, 0x10, 0xAB)], then
    [ReadReg(0x50, 0x10)] returns [0xAB]. *)
Example write_then_read_register :
  ∃ w1 w2 w3,
    SMBus.Open (mock healthy) 1 0x50 world0 = (Ok (Some conn0, None), w1) ∧
    SMBus.WriteReg (mock healthy) (Some conn0) 0x50 0x10 0xAB w1 = (Ok None, w2) ∧
    SMBus.ReadReg (mock healthy) (Some conn0) 0x50 0x10 w2 = (Ok (0xAB, None), w3).
Proof. eexists _, _, _. split_and!; vm_compute; reflexivity. Qed.

(** [WriteBlockData] with a 33-byte buffer returns the size-limit error and
    the adapter records no call. *)
Example write_block_33_bytes :
  SMBus.WriteBlockData (mock healthy) (Some conn0) 0x50 0x20 (replicate 33 1)
    world0 =
  (Ok (Some (ErrorString "smbus: buffer slice too big")),
   {| kstate := ∅; trace := [] |}).
Proof. vm_compute; reflexivity. Qed.

(** * Further properties of the package *)

(** ** Registers on a bus that echoes writes *)

Lemma u16_round_trip (be : bool) (v : Z) :
  0 ≤ v < 65536 → bytes_u16 be (u16_bytes be v) = v.
Proof.
  intros Hv. unfold bytes_u16, u16_bytes.
  assert (Hd : v / 256 mod 256 = v / 256).
  { apply Z.mod_small. split; [apply Z.div_pos; lia|].
    apply Z.div_lt_upper_bound; lia. }
  pose proof (Z.div_mod v 256 ltac:(lia)) as Hdm.
  destruct be; rewrite Hd; lia.
Qed.

Lemma length_u16_bytes (be : bool) (v : Z) : length (u16_bytes be v) = 2%nat.
Proof. by destruct be. Qed.

(** A write transaction followed by a read transaction of the same
    register, on a bus that echoes writes. *)
Lemma echo_write_then_read {S A} (P : Platform S) last cv a wc rc
  (failed : error → A) k (w : World S) :
  echo_bus P last →
  rw wc = i2cSMBusWrite → rw rc = i2cSMBusRead → cmd rc = cmd wc →
  ∃ w1 w2,
    transaction P (Some cv) a wc Some (λ err _, err) w = (Ok None, w1) ∧
    transaction P (Some cv) a rc failed k w1 =
      (Ok (k None (copy (ptr rc) (ptr wc))), w2).
Proof.
  intros [Hsel Hwr Hrd] Hw Hr Hcmd. rewrite transaction_run.
  destruct (Hsel (Fd (SMBus.f cv)) (SMBus.force cv) a (kstate w)) as [Hs0 Hs1].
  rewrite decide_True by done.
  set (s1 := (sys_ioctl P _ (select_code _) _ (kstate w)).2) in *.
  destruct (Hwr (Fd (SMBus.f cv)) wc s1 Hw) as [Hw0 Hw1].
  rewrite Hw0, errno_error_0.
  set (s2 := (sys_ioctl P _ i2cSMBus _ s1).2) in *.
  eexists _, _. split; [reflexivity|].
  rewrite transaction_run. cbn [kstate].
  destruct (Hsel (Fd (SMBus.f cv)) (SMBus.force cv) a s2) as [Hs2 Hs3].
  rewrite decide_True by done.
  set (s3 := (sys_ioctl P _ (select_code _) _ s2).2) in *.
  rewrite (Hrd (Fd (SMBus.f cv)) rc s3 (ptr wc) Hr)
    by (rewrite Hs3, Hcmd; exact Hw1).
  cbn [fst snd]. by rewrite errno_error_0.
Qed.

(** X1. On a bus that echoes writes, [WriteReg(addr, reg, v)] succeeds and
    a following [ReadReg(addr, reg)] succeeds and returns [v]. *)
Theorem register_round_trip {S} (P : Platform S) last cv a reg v
  (w : World S) :
  echo_bus P last →
  ∃ w1 w2,
    SMBus.WriteReg P (Some cv) a reg v w = (Ok None, w1) ∧
    SMBus.ReadReg P (Some cv) a reg w1 = (Ok (v, None), w2).
Proof.
  intros Hecho. rewrite WriteReg_transaction.
  destruct (echo_write_then_read P last cv a (write_byte_cmd reg v)
              (read_byte_cmd reg) (λ e, (0, Some e))
              (λ err m, (bytes_u8 m, err)) w Hecho eq_refl eq_refl eq_refl)
    as (w1 & w2 & Hw & Hr).
  exists w1, w2. split; [done|]. rewrite ReadReg_transaction. exact Hr.
Qed.

Lemma register_round_trip_witness :
  echo_bus (mock healthy) (λ s reg, s !! reg) ∧
  ∃ w1 w2,
    SMBus.WriteReg (mock healthy) (Some conn0) 0x50 0x10 0xAB world0 =
      (Ok None, w1) ∧
    SMBus.ReadReg (mock healthy) (Some conn0) 0x50 0x10 w1 =
      (Ok (0xAB, None), w2).
Proof.
  split; [exact mock_healthy_echo|].
  exact (register_round_trip (mock healthy) (λ s reg, s !! reg) conn0
           0x50 0x10 0xAB world0 mock_healthy_echo).
Defined.

(** X2. On a bus that echoes writes, [WriteWord(addr, reg, v)] succeeds
    and a following [ReadWord(addr, reg)] succeeds and returns [v], for
    every 16-bit [v] and in either byte order of the platform. *)
Theorem word_round_trip {S} (P : Platform S) last cv a reg v (w : World S) :
  echo_bus P last →
  0 ≤ v < 65536 →
  ∃ w1 w2,
    SMBus.WriteWord P (Some cv) a reg v w = (Ok None, w1) ∧
    SMBus.ReadWord P (Some cv) a reg w1 = (Ok (v, None), w2).
Proof.
  intros Hecho Hv. rewrite WriteWord_transaction.
  destruct (echo_write_then_read P last cv a
              (write_word_cmd (big_endian P) reg v)
              (read_word_cmd (big_endian P) reg) (λ e, (0, Some e))
              (λ err m, (bytes_u16 (big_endian P) m, err)) w
              Hecho eq_refl eq_refl eq_refl)
    as (w1 & w2 & Hw & Hr).
  exists w1, w2. split; [done|]. rewrite ReadWord_transaction, Hr.
  cbn [ptr read_word_cmd write_word_cmd].
  rewrite copy_same_length by (by rewrite !length_u16_bytes).
  by rewrite u16_round_trip.
Qed.

Lemma word_round_trip_witness :
  echo_bus (mock healthy) (λ s reg, s !! reg) ∧
  0 ≤ 0xBEEF < 65536 ∧
  ∃ w1 w2,
    SMBus.WriteWord (mock healthy) (Some conn0) 0x50 0x10 0xBEEF world0 =
      (Ok None, w1) ∧
    SMBus.ReadWord (mock healthy) (Some conn0) 0x50 0x10 w1 =
      (Ok (0xBEEF, None), w2).
Proof.
  split; [exact mock_healthy_echo|]. split; [lia|].
  apply (word_round_trip (mock healthy) (λ s reg, s !! reg) conn0
           0x50 0x10 0xBEEF world0 mock_healthy_echo).
  lia.
Defined.

(** ** Backup and restore on a register file *)

Section RegisterFile.
Context {S : Type} (P : Platform S) (last : S → Z → option (list Z)).
Hypothesis Hrf : register_file P last.

Lemma ReadReg_register_file cv a reg v (w : World S) :
  last (kstate w) reg = Some [v] →
  ∃ w',
    SMBus.ReadReg P (Some cv) a reg w = (Ok (v, None), w') ∧
    ∀ r, last (kstate w') r = last (kstate w) r.
Proof.
  intros Hv. rewrite ReadReg_transaction, transaction_run.
  destruct (rf_select P last Hrf (Fd (SMBus.f cv)) (SMBus.force cv) a (kstate w))
    as [Hs0 Hs1].
  rewrite decide_True by done.
  set (s1 := (sys_ioctl P _ (select_code _) _ (kstate w)).2) in *.
  destruct (rf_read P last Hrf (Fd (SMBus.f cv)) (read_byte_cmd reg) s1 [v]
              eq_refl) as [Hr0 Hr1]; [by rewrite Hs1|].
  rewrite Hr0. cbn [fst snd]. rewrite errno_error_0.
  eexists. split; [reflexivity|].
  intros r. cbn [kstate]. by rewrite Hr1, Hs1.
Qed.

Lemma WriteReg_register_file cv a reg v (w : World S) :
  ∃ w',
    SMBus.WriteReg P (Some cv) a reg v w = (Ok None, w') ∧
    last (kstate w') reg = Some [v] ∧
    ∀ r, r ≠ reg → last (kstate w') r = last (kstate w) r.
Proof.
  rewrite WriteReg_transaction, transaction_run.
  destruct (rf_select P last Hrf (Fd (SMBus.f cv)) (SMBus.force cv) a (kstate w))
    as [Hs0 Hs1].
  rewrite decide_True by done.
  set (s1 := (sys_ioctl P _ (select_code _) _ (kstate w)).2) in *.
  destruct (rf_write P last Hrf (Fd (SMBus.f cv)) (write_byte_cmd reg v) s1
              eq_refl) as (Hw0 & Hw1 & Hw2).
  rewrite Hw0, errno_error_0.
  eexists. split; [reflexivity|]. cbn [kstate]. split; [exact Hw1|].
  intros r Hr. rewrite Hw2 by done. apply Hs1.
Qed.

(** The backup loop reads every listed register and leaves the register
    file as it found it; what it records is what the registers hold. *)
Lemma backup_range_register_file file force a regs m (w : World S) :
  (∀ reg, reg ∈ regs → ∃ v, last (kstate w) reg = Some [v]) →
  (∀ k v, m !! k = Some v → last (kstate w) k = Some [v]) →
  ∃ m' w',
    SMBus.backup_range P
      {| SMBus.f := file; SMBus.force := force;
         SMBus.backupRegs := m; SMBus.backupaddr := a |} a regs w =
      (Ok (Some {| SMBus.f := file; SMBus.force := force;
                   SMBus.backupRegs := m'; SMBus.backupaddr := a |}, None), w') ∧
    (∀ r, last (kstate w') r = last (kstate w) r) ∧
    (∀ k v, m' !! k = Some v → last (kstate w) k = Some [v]) ∧
    (∀ reg, reg ∈ regs → is_Some (m' !! reg)) ∧
    (∀ k, is_Some (m !! k) → is_Some (m' !! k)).
Proof.
  revert m w. induction regs as [|i rest IH]; intros m w Hregs Hm.
  - exists m, w. split_and!; try done. intros reg Hin. by apply elem_of_nil in Hin.
  - destruct (Hregs i) as [v Hv]; [apply elem_of_cons; by left|].
    cbn [SMBus.backup_range].
    set (cv := {| SMBus.f := file; SMBus.force := force;
                  SMBus.backupRegs := m; SMBus.backupaddr := a |}).
    destruct (ReadReg_register_file cv a i v w Hv) as (w1 & Hrun & Hsame).
    rewrite (bind_ok _ _ _ _ _ Hrun).
    cbn [SMBus.f SMBus.force SMBus.backupRegs SMBus.backupaddr cv].
    destruct (IH (<[i:=v]> m) w1) as (m' & w' & Hrun' & Hsame' & Hm' & Hin' & Hsub).
    + intros reg Hin. rewrite Hsame. apply Hregs. apply elem_of_cons. by right.
    + intros k v' Hk. rewrite Hsame.
      destruct (decide (k = i)) as [->|Hne].
      * rewrite lookup_insert_eq in Hk. by injection Hk as <-.
      * rewrite lookup_insert_ne in Hk by done. by apply Hm.
    + exists m', w'. split_and!; try done.
      * intros r. by rewrite Hsame', Hsame.
      * intros k v' Hk. rewrite <- Hsame. by apply Hm'.
      * intros reg Hin. apply elem_of_cons in Hin as [->|Hin]; [|by apply Hin'].
        apply Hsub. rewrite lookup_insert_eq. by eexists.
      * intros k Hk. apply Hsub.
        destruct (decide (k = i)) as [->|Hne].
        -- rewrite lookup_insert_eq. by eexists.
        -- by rewrite lookup_insert_ne.
Qed.

(** The restore loop over pairs with distinct registers writes every pair
    and touches no other register. *)
Lemma Close_range_register_file cv kvs (w : World S) :
  NoDup kvs.*1 →
  ∃ cerr w',
    SMBus.Close_range P (Some cv) kvs w = (Ok cerr, w') ∧
    (∀ k v, (k, v) ∈ kvs → last (kstate w') k = Some [v]) ∧
    (∀ k, k ∉ kvs.*1 → last (kstate w') k = last (kstate w) k).
Proof.
  revert w. induction kvs as [|[k v] rest IH]; intros w Hnd.
  - cbn [SMBus.Close_range deref]. erewrite bind_ok by reflexivity.
    rewrite File_Close_run. eexists _, _. split; [reflexivity|].
    cbn [kstate]. split.
    + intros k v Hin. by apply elem_of_nil in Hin.
    + intros k _. apply (rf_close P last Hrf).
  - cbn [fmap list_fmap] in Hnd. apply NoDup_cons in Hnd as [Hk Hnd].
    cbn [SMBus.Close_range deref]. erewrite bind_ok by reflexivity.
    destruct (WriteReg_register_file cv (SMBus.backupaddr cv) k v w)
      as (w1 & Hrun & Hset & Hframe).
    rewrite (bind_ok _ _ _ _ _ Hrun).
    destruct (IH w1 Hnd) as (cerr & w' & Hrun' & Hall & Hother).
    exists cerr, w'. split; [done|]. split.
    + intros k' v' Hin. apply elem_of_cons in Hin as [Heq|Hin].
      * injection Heq as -> ->. rewrite Hother by done. exact Hset.
      * by apply Hall.
    + intros k' Hk'. cbn [fmap list_fmap] in Hk'.
      apply not_elem_of_cons in Hk' as [Hne Hk'].
      rewrite Hother by done. by apply Hframe.
Qed.

End RegisterFile.

(** X3. On a register file, a connection that [OpenWithOptions] returned
    for a backup list puts things back: whatever state the device is in
    when [Close] is called, after [Close] every listed register holds the
    byte it held when the connection was opened. *)
Theorem backup_restore_round_trip {S} (P : Platform S) last bus a force regs
  cv cerr (w w1 w2 w3 : World S) :
  register_file P last →
  range_ok P →
  (∀ reg, reg ∈ regs → ∃ v, last (kstate w) reg = Some [v]) →
  SMBus.OpenWithOptions P bus a
    (Some {| SMBus.Force := force; SMBus.BackupRestoreRegs := Some regs |}) w =
    (Ok (Some cv, None), w1) →
  SMBus.Close P (Some cv) w2 = (Ok cerr, w3) →
  ∀ reg, reg ∈ regs → last (kstate w3) reg = last (kstate w) reg.
Proof.
  intros Hrf Hrange Hregs Hopen Hclose reg Hreg.
  unfold SMBus.OpenWithOptions in Hopen.
  cbn [SMBus.BackupRestoreRegs SMBus.Force] in Hopen.
  rewrite (bind_ok _ _ _ _ _ (OpenFileWithOptions_run P bus force w)) in Hopen.
  pose proof (rf_open P last Hrf (dev_path bus) O_RDWR perm0600 (kstate w))
    as Hlast0.
  destruct (os_OpenFile P (dev_path bus) O_RDWR perm0600 (kstate w))
    as [[file|err] s0]; cbn [fst snd] in Hopen, Hlast0; [|discriminate Hopen].
  unfold bind at 1 in Hopen. rewrite addr_run in Hopen.
  cbn [SMBus.f SMBus.force kstate trace] in Hopen.
  destruct (rf_select P last Hrf (Fd file) force a s0) as [Hs0 Hs1].
  rewrite Hs0, errno_error_0 in Hopen. cbn [deref] in Hopen.
  erewrite bind_ok in Hopen by reflexivity.
  cbn [SMBus.f SMBus.force SMBus.backupRegs] in Hopen.
  set (wb := {| kstate := _; trace := _ |}) in Hopen.
  assert (Hlastb : ∀ r, last (kstate wb) r = last (kstate w) r).
  { intros r. unfold wb. cbn [kstate]. by rewrite Hs1, Hlast0. }
  destruct (backup_range_register_file P last Hrf file force a regs ∅ wb)
    as (m' & w' & Hrun & _ & Hm' & Hin' & _).
  { intros r Hr. rewrite Hlastb. by apply Hregs. }
  { intros k v Hk. by rewrite lookup_empty in Hk. }
  rewrite Hrun in Hopen. injection Hopen as <- <-.
  unfold SMBus.Close in Hclose. cbn [deref] in Hclose.
  erewrite bind_ok in Hclose by reflexivity.
  unfold range_map, runtime in Hclose.
  erewrite bind_ok in Hclose by reflexivity.
  cbn [SMBus.backupRegs] in Hclose.
  set (kvs := map_range P m' (kstate w2)) in Hclose.
  assert (Hperm : kvs ≡ₚ map_to_list m') by apply Hrange.
  destruct (Close_range_register_file P last Hrf
              {| SMBus.f := file; SMBus.force := force;
                 SMBus.backupRegs := m'; SMBus.backupaddr := a |} kvs w2)
    as (cerr' & w3' & Hrun3 & Hall & _).
  { rewrite Hperm. apply NoDup_fst_map_to_list. }
  rewrite Hrun3 in Hclose. injection Hclose as <- <-.
  destruct (Hin' reg Hreg) as [v Hv].
  rewrite (Hall reg v) by (rewrite Hperm; by apply elem_of_map_to_list).
  symmetry. rewrite <- Hlastb. by apply Hm'.
Qed.

Lemma mock_healthy_register_file :
  register_file (mock healthy) (λ s reg, s !! reg).
Proof.
  split; try done.
  - intros fd force a s. by destruct force.
  - intros fd c s Hrw. cbn. unfold mock_ioctl.
    rewrite decide_True by done. rewrite Hrw.
    rewrite decide_False by done. cbn. rewrite decide_True by done. cbn.
    split_and!; [done|by rewrite lookup_insert_eq|].
    intros r Hr. by rewrite lookup_insert_ne.
  - intros fd c s d Hrw Hd. cbn. unfold mock_ioctl.
    rewrite decide_True by done. rewrite Hrw, decide_True by done.
    cbn. by rewrite Hd.
Qed.

Lemma backup_restore_round_trip_witness :
  register_file (mock healthy) (λ s reg, s !! reg) ∧
  range_ok (mock healthy) ∧
  (∀ reg, reg ∈ [1; 2] → ∃ v, kstate world79 !! reg = Some [v]) ∧
  SMBus.OpenWithOptions (mock healthy) 1 0x50
    (Some {| SMBus.Force := false; SMBus.BackupRestoreRegs := Some [1; 2] |})
    world79 =
    (Ok (Some conn12, None),
     (SMBus.OpenWithOptions (mock healthy) 1 0x50
        (Some {| SMBus.Force := false; SMBus.BackupRestoreRegs := Some [1; 2] |})
        world79).2) ∧
  SMBus.Close (mock healthy) (Some conn12) world_scrambled =
    (Ok None, (SMBus.Close (mock healthy) (Some conn12) world_scrambled).2) ∧
  ∀ reg, reg ∈ [1; 2] →
    kstate (SMBus.Close (mock healthy) (Some conn12) world_scrambled).2 !! reg =
    kstate world79 !! reg.
Proof.
  assert (H3 : ∀ reg, reg ∈ [1; 2] → ∃ v, kstate world79 !! reg = Some [v]).
  { intros reg Hin. apply elem_of_cons in Hin as [->|Hin]; [by exists 7|].
    apply list_elem_of_singleton in Hin as ->. by exists 9. }
  assert (H4 : SMBus.OpenWithOptions (mock healthy) 1 0x50
    (Some {| SMBus.Force := false; SMBus.BackupRestoreRegs := Some [1; 2] |})
    world79 =
    (Ok (Some conn12, None),
     (SMBus.OpenWithOptions (mock healthy) 1 0x50
        (Some {| SMBus.Force := false; SMBus.BackupRestoreRegs := Some [1; 2] |})
        world79).2)) by (vm_compute; reflexivity).
  assert (H5 : SMBus.Close (mock healthy) (Some conn12) world_scrambled =
    (Ok None, (SMBus.Close (mock healthy) (Some conn12) world_scrambled).2))
    by (vm_compute; reflexivity).
  split; [exact mock_healthy_register_file|].
  split; [apply mock_range_ok|]. split; [exact H3|].
  split; [exact H4|]. split; [exact H5|].
  exact (backup_restore_round_trip (mock healthy) (λ s reg, s !! reg) 1 0x50
           false [1; 2] conn12 None world79 _ world_scrambled _
           mock_healthy_register_file (mock_range_ok healthy) H3 H4 H5).
Defined.

(** ** What the open functions return and leave open *)

Section OpenResults.
Context {S : Type} (P : Platform S).

Lemma open_handles_snoc_open t path flag perm file :
  open_handles (t ++ [EvOpen path flag perm (inl file)]) = file :: open_handles t.
Proof. by rewrite open_handles_app. Qed.

Lemma open_handles_snoc_open_failed t path flag perm err :
  open_handles (t ++ [EvOpen path flag perm (inr err)]) = open_handles t.
Proof. by rewrite open_handles_app. Qed.

Lemma open_handles_ioctls t evs :
  Forall (λ e, is_ioctl e = true) evs →
  open_handles (t ++ evs) = open_handles t.
Proof. intros H. rewrite open_handles_app. by apply handle_step_ioctls. Qed.

Lemma open_handles_snoc_close t file cerr hs :
  open_handles t = file :: hs →
  open_handles (t ++ [EvClose file cerr]) = hs.
Proof.
  intros H. rewrite open_handles_app, H. cbn. apply remove_first_head.
Qed.

(** The three ways in which [OpenWithOptions] goes on after the options
    pointer was found not to be nil. *)
Lemma OpenWithOptions_open_failed bus a o err s1 (w : World S) :
  os_OpenFile P (dev_path bus) O_RDWR perm0600 (kstate w) = (inr err, s1) →
  SMBus.OpenWithOptions P bus a (Some o) w =
  (Ok (None, Some err),
   {| kstate := s1;
      trace := trace w ++ [EvOpen (dev_path bus) O_RDWR perm0600 (inr err)] |}).
Proof.
  intros Hopen. unfold SMBus.OpenWithOptions.
  rewrite (bind_ok _ _ _ _ _ (OpenFileWithOptions_run P bus (SMBus.Force o) w)).
  by rewrite Hopen.
Qed.

Lemma OpenWithOptions_select_failed bus a o file s1 (w : World S) :
  os_OpenFile P (dev_path bus) O_RDWR perm0600 (kstate w) = (inl file, s1) →
  (sys_ioctl P (Fd file) (select_code (SMBus.Force o)) (ArgInt a) s1).1.1 ≠ 0 →
  ∃ evs cerr w',
    Forall (λ e, is_ioctl e = true) evs ∧
    trace w' = trace w ++
      [EvOpen (dev_path bus) O_RDWR perm0600 (inl file)] ++ evs ++
      [EvClose file cerr] ∧
    SMBus.OpenWithOptions P bus a (Some o) w =
      (Ok (None, Some (Errno
         (sys_ioctl P (Fd file) (select_code (SMBus.Force o)) (ArgInt a) s1).1.1)),
       w').
Proof.
  intros Hopen Hsel. unfold SMBus.OpenWithOptions.
  rewrite (bind_ok _ _ _ _ _ (OpenFileWithOptions_run P bus (SMBus.Force o) w)).
  rewrite Hopen. cbn [fst snd]. unfold bind at 1. rewrite addr_run.
  cbn [SMBus.f SMBus.force kstate trace]. rewrite (errno_error_ne _ Hsel).
  set (w1 := {| kstate := _; trace := _ |}).
  set (c := {| SMBus.f := file; SMBus.force := SMBus.Force o;
               SMBus.backupRegs := ∅; SMBus.backupaddr := 0 |}).
  destruct (Close_restored P c w1) as (dn & evr & cerr & w2 & Hres & Ht & Hrun).
  rewrite (bind_ok _ _ _ _ _ Hrun).
  exists (select_event (Fd file) (SMBus.Force o) a
            (sys_ioctl P (Fd file) (select_code (SMBus.Force o)) (ArgInt a) s1).1.1
          :: evr), cerr, w2.
  split_and!; [| |reflexivity].
  - constructor; [done|]. eapply restored_ioctls, Hres.
  - rewrite Ht. unfold w1. cbn [trace SMBus.f c]. by rewrite <- !app_assoc.
Qed.

Lemma OpenWithOptions_no_list bus a fc file s1 (w : World S) :
  os_OpenFile P (dev_path bus) O_RDWR perm0600 (kstate w) = (inl file, s1) →
  (sys_ioctl P (Fd file) (select_code fc) (ArgInt a) s1).1.1 = 0 →
  SMBus.OpenWithOptions P bus a
    (Some {| SMBus.Force := fc; SMBus.BackupRestoreRegs := None |}) w =
  (Ok (Some {| SMBus.f := file; SMBus.force := fc;
               SMBus.backupRegs := ∅; SMBus.backupaddr := 0 |}, None),
   {| kstate := (sys_ioctl P (Fd file) (select_code fc) (ArgInt a) s1).2;
      trace := trace w ++
        [EvOpen (dev_path bus) O_RDWR perm0600 (inl file);
         select_event (Fd file) fc a 0] |}).
Proof.
  intros Hopen Hsel. unfold SMBus.OpenWithOptions.
  cbn [SMBus.BackupRestoreRegs SMBus.Force].
  rewrite (bind_ok _ _ _ _ _ (OpenFileWithOptions_run P bus fc w)).
  rewrite Hopen. cbn [fst snd]. unfold bind at 1. rewrite addr_run.
  cbn [SMBus.f SMBus.force kstate trace]. rewrite Hsel, errno_error_0.
  cbn [ret]. by rewrite <- app_assoc.
Qed.

End OpenResults.

Section OpenReplay.
Context {S : Type} (P : Platform S).

Lemma backup_run_ioctls fd force a regs (s : S) :
  Forall (λ e, is_ioctl e = true) (run_events (backup_run P fd force a regs s)).
Proof.
  destruct (run_result (backup_run P fd force a regs s)).2 as [e|] eqn:Hb.
  - destruct (backup_run_failed P fd force a regs e s Hb)
      as (reg & rest & mem & evs0 & evf & _ & -> & Hbk & Hf).
    apply Forall_app.
    split; [eapply backed_up_ioctls, Hbk|eapply txn_ioctls, Hf].
  - destruct (backup_run_ok P fd force a regs s Hb) as [_ Hbk].
    eapply backed_up_ioctls, Hbk.
Qed.

Lemma restore_run_ioctls fd force a kvs (s : S) :
  Forall (λ e, is_ioctl e = true) (run_events (restore_run P fd force a kvs s)).
Proof. eapply restored_ioctls, restore_run_restored. Qed.

(** A replayed close is restore ioctls followed by the platform's close
    of the file. *)
Lemma close_run_shape cv (s : S) :
  ∃ evs s_end,
    Forall (λ e, is_ioctl e = true) evs ∧
    run_events (close_run P cv s) =
      evs ++ [EvClose (SMBus.f cv) (file_Close P (SMBus.f cv) s_end).1] ∧
    run_state (close_run P cv s) = (file_Close P (SMBus.f cv) s_end).2.
Proof.
  eexists _, _. split; [|split; reflexivity]. apply restore_run_ioctls.
Qed.

Lemma handles_opened_then_closed hs path flag perm file evs cerr :
  Forall (λ e, is_ioctl e = true) evs →
  foldl handle_step hs
    (EvOpen path flag perm (inl file) :: evs ++ [EvClose file cerr]) = hs.
Proof.
  intros Hio. cbn [foldl handle_step]. rewrite foldl_app.
  rewrite (handle_step_ioctls _ evs) by done. cbn. apply remove_first_head.
Qed.

End OpenReplay.

(** X4. [OpenWithOptions] is the replayed open [open_run]: the calls it
    puts to [os_OpenFile], [sys_ioctl] and [file_Close], their order, the
    states they are asked in and the state left are those of the replay,
    for every options pointer and whatever the platform answers; it never
    panics.  It returns either a connection and no error, or no connection
    and an error.  With a connection, the file of the connection is the
    file that [os_OpenFile] returned, it is the one handle more that is
    open afterwards, and the connection forces exactly when the options
    say so.  With an error, the handles open afterwards are those open
    before: when [os_OpenFile] had returned a file, the last call is
    [file_Close] on that file, only ioctls lie between the two, and the
    state afterwards is the one that close left. *)
Theorem open_with_options_result {S} (P : Platform S) bus a opts (w : World S) :
  let op := os_OpenFile P (dev_path bus) O_RDWR perm0600 (kstate w) in
  let r := open_run P bus a opts (kstate w) in
  SMBus.OpenWithOptions P bus a opts w = played w r ∧
  match run_result r with
  | (Some cv, None) =>
      op.1 = inl (SMBus.f cv) ∧
      (∃ o, opts = Some o ∧ SMBus.force cv = SMBus.Force o) ∧
      open_handles (trace w ++ run_events r) =
        SMBus.f cv :: open_handles (trace w)
  | (None, Some e) =>
      open_handles (trace w ++ run_events r) = open_handles (trace w) ∧
      match opts, op.1 with
      | Some _, inl file =>
          ∃ evs s_end,
            Forall (λ ev, is_ioctl ev = true) evs ∧
            run_events r =
              EvOpen (dev_path bus) O_RDWR perm0600 (inl file) ::
              evs ++ [EvClose file (file_Close P file s_end).1] ∧
            run_state r = (file_Close P file s_end).2
      | Some _, inr err =>
          e = err ∧
          run_events r = [EvOpen (dev_path bus) O_RDWR perm0600 (inr err)] ∧
          run_state r = op.2
      | None, _ => run_events r = [] ∧ run_state r = kstate w
      end
  | _ => False
  end.
Proof.
  intros op r. split; [apply OpenWithOptions_runs|].
  unfold r, open_run. destruct opts as [o|].
  2:{ cbn [run_result run_events run_state]. by rewrite app_nil_r. }
  fold op. destruct op.1 as [file|err] eqn:Hop.
  2:{ cbn [run_result run_events run_state]. split; [|done].
      by rewrite open_handles_app. }
  cbv zeta.
  set (sel := sys_ioctl P (Fd file) (select_code (SMBus.Force o)) (ArgInt a) op.2).
  set (opened := EvOpen (dev_path bus) O_RDWR perm0600 (inl file)).
  destruct (decide (sel.1.1 = 0)) as [Hsel|Hsel].
  - destruct (SMBus.BackupRestoreRegs o) as [regs|].
    + unfold open_backup_run.
      set (b := backup_run P (Fd file) (SMBus.Force o) a regs sel.2).
      pose proof (backup_run_ioctls P (Fd file) (SMBus.Force o) a regs sel.2)
        as Hiob. fold b in Hiob.
      destruct (run_result b).2 as [e|].
      * cbn [run_result run_events run_state].
        set (cv := {| SMBus.f := file; SMBus.force := SMBus.Force o;
                      SMBus.backupRegs := recorded_from ∅ (run_result b).1;
                      SMBus.backupaddr := a |}).
        destruct (close_run_shape P cv (run_state b))
          as (evs & s_end & Hio & Hev & Hst).
        cbn [SMBus.f cv] in Hev, Hst.
        assert (Hall : Forall (λ ev, is_ioctl ev = true)
                         (select_event (Fd file) (SMBus.Force o) a 0 ::
                          run_events b ++ evs)).
        { constructor; [done|]. by apply Forall_app. }
        split.
        -- rewrite open_handles_app, Hev. cbn [app].
           rewrite (app_assoc (run_events b)), app_comm_cons.
           by apply handles_opened_then_closed.
        -- exists (select_event (Fd file) (SMBus.Force o) a 0 ::
                   run_events b ++ evs), s_end.
           split_and!; [done| |done].
           rewrite Hev. cbn [app]. by rewrite <- app_assoc.
      * cbn [run_result run_events run_state SMBus.f SMBus.force].
        split_and!; [done|by eexists|].
        rewrite open_handles_app. cbn [app foldl handle_step select_event].
        by apply handle_step_ioctls.
    + cbn [run_result run_events run_state SMBus.f SMBus.force].
      split_and!; [done|by eexists|]. by rewrite open_handles_app.
  - cbn [run_result run_events run_state].
    set (c0 := {| SMBus.f := file; SMBus.force := SMBus.Force o;
                  SMBus.backupRegs := ∅; SMBus.backupaddr := 0 |}).
    destruct (close_run_shape P c0 sel.2) as (evs & s_end & Hio & Hev & Hst).
    cbn [SMBus.f c0] in Hev, Hst.
    assert (Hall : Forall (λ ev, is_ioctl ev = true)
                     (select_event (Fd file) (SMBus.Force o) a sel.1.1 :: evs))
      by (by constructor).
    split.
    + rewrite open_handles_app, Hev. cbn [app]. rewrite app_comm_cons.
      by apply handles_opened_then_closed.
    + exists (select_event (Fd file) (SMBus.Force o) a sel.1.1 :: evs), s_end.
      split_and!; [done| |done]. by rewrite Hev.
Qed.

(** X5. [OpenFileWithOptions] never panics and asks the platform at most
    one thing: for a nil options pointer or a non-empty backup list it
    returns an error and leaves the world as it was; otherwise it puts
    exactly the one call that opens [/dev/i2c-<bus>] to [os_OpenFile], in
    the state it starts in, issues no ioctl, and the state afterwards is
    the one that call left.  When [os_OpenFile] returns a file it returns
    a connection and no error, and the connection holds that file, forces
    exactly when the options say so, has nothing backed up and backup
    address 0; that file is the one handle more that is open.  When
    [os_OpenFile] returns an error it returns no connection and that
    error, and the open handles are as before. *)
Theorem open_file_with_options_result {S} (P : Platform S) bus opts
  (w : World S) :
  let op := os_OpenFile P (dev_path bus) O_RDWR perm0600 (kstate w) in
  let after := (SMBus.OpenFileWithOptions P bus opts w).2 in
  SMBus.OpenFileWithOptions P bus opts w =
    match opts with
    | None => (Ok (None, Some (ErrorString "opts is nil")), w)
    | Some o =>
      match SMBus.BackupRestoreRegs o with
      | Some (_ :: _) =>
        (Ok (None, Some (ErrorString
           "option BackupRestoreRegs is not supported with OpenFile()")), w)
      | _ =>
        (Ok match op.1 with
            | inl file =>
              (Some {| SMBus.f := file; SMBus.force := SMBus.Force o;
                       SMBus.backupRegs := ∅; SMBus.backupaddr := 0 |}, None)
            | inr err => (None, Some err)
            end,
         {| kstate := op.2;
            trace := trace w ++ [EvOpen (dev_path bus) O_RDWR perm0600 op.1] |})
      end
    end ∧
  match (SMBus.OpenFileWithOptions P bus opts w).1 with
  | Ok (Some cv, None) =>
      op.1 = inl (SMBus.f cv) ∧
      open_handles (trace after) = SMBus.f cv :: open_handles (trace w)
  | Ok (None, Some e) => open_handles (trace after) = open_handles (trace w)
  | _ => False
  end.
Proof.
  intros op after.
  assert (Hnil : ∀ fc,
    SMBus.OpenFileWithOptions P bus
      (Some {| SMBus.Force := fc; SMBus.BackupRestoreRegs := None |}) w =
    (Ok match op.1 with
        | inl file =>
          (Some {| SMBus.f := file; SMBus.force := fc;
                   SMBus.backupRegs := ∅; SMBus.backupaddr := 0 |}, None)
        | inr err => (None, Some err)
        end,
     {| kstate := op.2;
        trace := trace w ++ [EvOpen (dev_path bus) O_RDWR perm0600 op.1] |}))
    by (intros fc; apply OpenFileWithOptions_run).
  assert (Heq : SMBus.OpenFileWithOptions P bus opts w =
    match opts with
    | None => (Ok (None, Some (ErrorString "opts is nil")), w)
    | Some o =>
      match SMBus.BackupRestoreRegs o with
      | Some (_ :: _) =>
        (Ok (None, Some (ErrorString
           "option BackupRestoreRegs is not supported with OpenFile()")), w)
      | _ =>
        (Ok match op.1 with
            | inl file =>
              (Some {| SMBus.f := file; SMBus.force := SMBus.Force o;
                       SMBus.backupRegs := ∅; SMBus.backupaddr := 0 |}, None)
            | inr err => (None, Some err)
            end,
         {| kstate := op.2;
            trace := trace w ++ [EvOpen (dev_path bus) O_RDWR perm0600 op.1] |})
      end
    end).
  { destruct opts as [[fc [[|x xs]|]]|]; try reflexivity; apply Hnil. }
  split; [exact Heq|]. unfold after. rewrite Heq.
  destruct opts as [[fc [[|x xs]|]]|]; cbn [SMBus.BackupRestoreRegs fst snd];
    try done;
    (destruct op.1 as [file|err]; cbn [trace SMBus.f];
     [split; [done|]|]; by rewrite open_handles_app).
Qed.

(** ** The backup map *)

Lemma dom_recorded_from (m : gmap Z Z) (rvs : list (Z * Z)) :
  dom (recorded_from m rvs) = dom m ∪ list_to_set rvs.*1.
Proof.
  revert m. induction rvs as [|[r v] rvs IH]; intros m.
  - cbn. by rewrite (right_id_L ∅ (∪)).
  - cbn [recorded_from foldl fst snd]. fold (recorded_from (<[r:=v]> m) rvs).
    rewrite IH, dom_insert_L. cbn [fmap list_fmap list_to_set fst].
    rewrite (comm_L (∪) {[r]} (dom m)). by rewrite (assoc_L (∪)).
Qed.

Lemma recorded_from_lookup (m : gmap Z Z) (rvs : list (Z * Z)) k v :
  recorded_from m rvs !! k = Some v → (k, v) ∈ rvs ∨ m !! k = Some v.
Proof.
  revert m. induction rvs as [|[r v'] rvs IH]; intros m H.
  - by right.
  - cbn [recorded_from foldl fst snd] in H.
    fold (recorded_from (<[r:=v']> m) rvs) in H.
    destruct (IH _ H) as [Hin|Hm].
    + left. apply elem_of_cons. by right.
    + destruct (decide (r = k)) as [->|Hne].
      * rewrite lookup_insert_eq in Hm. injection Hm as ->.
        left. apply elem_of_cons. by left.
      * rewrite lookup_insert_ne in Hm by done. by right.
Qed.

Lemma backed_up_length fd force a rvs evs :
  backed_up fd force a rvs evs → length evs = (2 * length rvs)%nat.
Proof.
  induction 1 as [|reg v rvs evs evs' Htxn _ IH]; [done|].
  rewrite length_app, IH. cbn [length].
  inversion Htxn; subst; cbn [length]; lia.
Qed.

(** X6. When [OpenWithOptions] returns a connection for a backup list,
    [os_OpenFile] returned the file of the connection, the address-select
    ioctl put to [sys_ioctl] on it returned errno 0, and every read of the
    replayed backup [backup_run] of the list, started in the state the
    select left, succeeded.  The backup map of the connection is the map
    recorded from those reads: its registers are exactly the listed
    registers (a register listed twice is one key) and every value in it
    is the byte that a read of that register stored.  The backup address is
    the address given, the state afterwards is the one the last read left,
    and the open issued one call to open the file, one address-select
    ioctl and two ioctls per listed register. *)
Theorem backup_map_of_open {S} (P : Platform S) bus a force regs cv
  (w w' : World S) :
  SMBus.OpenWithOptions P bus a
    (Some {| SMBus.Force := force; SMBus.BackupRestoreRegs := Some regs |}) w =
    (Ok (Some cv, None), w') →
  let op := os_OpenFile P (dev_path bus) O_RDWR perm0600 (kstate w) in
  let fd := Fd (SMBus.f cv) in
  let sel := sys_ioctl P fd (select_code force) (ArgInt a) op.2 in
  let b := backup_run P fd force a regs sel.2 in
  op.1 = inl (SMBus.f cv) ∧
  sel.1.1 = 0 ∧
  (run_result b).2 = None ∧
  (run_result b).1.*1 = regs ∧
  SMBus.backupRegs cv = recorded (run_result b).1 ∧
  dom (SMBus.backupRegs cv) = list_to_set regs ∧
  (∀ reg v, SMBus.backupRegs cv !! reg = Some v → (reg, v) ∈ (run_result b).1) ∧
  SMBus.backupaddr cv = a ∧
  SMBus.force cv = force ∧
  w' = {| kstate := run_state b;
          trace := trace w ++
            [EvOpen (dev_path bus) O_RDWR perm0600 (inl (SMBus.f cv));
             select_event fd force a 0] ++ run_events b |} ∧
  length (trace w') = (length (trace w) + 2 + 2 * length regs)%nat.
Proof.
  intros Hrun op fd sel b.
  rewrite OpenWithOptions_runs in Hrun. unfold open_run in Hrun. fold op in Hrun.
  cbv zeta in Hrun. cbn [SMBus.Force SMBus.BackupRestoreRegs] in Hrun.
  destruct op.1 as [file|err] eqn:Hop; [|discriminate Hrun].
  destruct (decide ((sys_ioctl P (Fd file) (select_code force) (ArgInt a) op.2).1.1 = 0))
    as [Hsel|Hsel]; [|discriminate Hrun].
  unfold open_backup_run in Hrun.
  destruct (run_result (backup_run P (Fd file) force a regs
                          (sys_ioctl P (Fd file) (select_code force) (ArgInt a) op.2).2)).2
    as [e|] eqn:Hb; [discriminate Hrun|].
  unfold played in Hrun. cbn [run_result run_events run_state] in Hrun.
  injection Hrun as <- <-.
  cbn [SMBus.f SMBus.force SMBus.backupRegs SMBus.backupaddr] in *.
  subst fd sel b. cbn [SMBus.f].
  destruct (backup_run_ok P (Fd file) force a regs _ Hb) as [Hregs Hbk].
  split_and!; try done.
  - fold (recorded (run_result (backup_run P (Fd file) force a regs
            (sys_ioctl P (Fd file) (select_code force) (ArgInt a) op.2).2)).1).
    unfold recorded.
    by rewrite dom_recorded_from, dom_empty_L, (left_id_L ∅ (∪)), Hregs.
  - intros reg v Hl. destruct (recorded_from_lookup _ _ _ _ Hl) as [Hin|He];
      [done|by rewrite lookup_empty in He].
  - cbn [trace]. rewrite length_app. cbn [length].
    rewrite (backed_up_length _ _ _ _ _ Hbk).
    rewrite <- Hregs at 2. rewrite length_fmap. lia.
Qed.

Lemma backup_map_of_open_witness :
  SMBus.OpenWithOptions (mock healthy) 1 0x50
    (Some {| SMBus.Force := false; SMBus.BackupRestoreRegs := Some [1; 2; 1] |})
    world79 =
    (Ok (Some conn12, None),
     {| kstate := kstate world79;
        trace :=
          [EvOpen "/dev/i2c-1" O_RDWR perm0600 (inl {| Fd := 3 |});
           select_event 3 false 0x50 0;
           select_event 3 false 0x50 0;
           EvIoctl 3 0x0720 (ArgPtr (read_byte_cmd 1)) 0 [7];
           select_event 3 false 0x50 0;
           EvIoctl 3 0x0720 (ArgPtr (read_byte_cmd 2)) 0 [9];
           select_event 3 false 0x50 0;
           EvIoctl 3 0x0720 (ArgPtr (read_byte_cmd 1)) 0 [7]] |}) ∧
  SMBus.backupRegs conn12 =
    recorded (run_result (backup_run (mock healthy) 3 false 0x50 [1; 2; 1]
                            (kstate world79))).1 ∧
  run_result (backup_run (mock healthy) 3 false 0x50 [1; 2; 1]
                (kstate world79)) = ([(1, 7); (2, 9); (1, 7)], None) ∧
  dom (SMBus.backupRegs conn12) = list_to_set [1; 2; 1].
Proof.
  assert (H : SMBus.OpenWithOptions (mock healthy) 1 0x50
    (Some {| SMBus.Force := false; SMBus.BackupRestoreRegs := Some [1; 2; 1] |})
    world79 =
    (Ok (Some conn12, None),
     {| kstate := kstate world79;
        trace :=
          [EvOpen "/dev/i2c-1" O_RDWR perm0600 (inl {| Fd := 3 |});
           select_event 3 false 0x50 0;
           select_event 3 false 0x50 0;
           EvIoctl 3 0x0720 (ArgPtr (read_byte_cmd 1)) 0 [7];
           select_event 3 false 0x50 0;
           EvIoctl 3 0x0720 (ArgPtr (read_byte_cmd 2)) 0 [9];
           select_event 3 false 0x50 0;
           EvIoctl 3 0x0720 (ArgPtr (read_byte_cmd 1)) 0 [7]] |}))
    by (vm_compute; reflexivity).
  pose proof (backup_map_of_open (mock healthy) 1 0x50 false [1; 2; 1]
                conn12 world79 _ H) as T.
  split; [exact H|]. split; [exact (proj1 (proj2 (proj2 (proj2 (proj2 T)))))|].
  split; [vm_compute; reflexivity|].
  exact (proj1 (proj2 (proj2 (proj2 (proj2 (proj2 T)))))).
Defined.

(** ** Opening without a backup list, and closing *)

Section NoBackups.
Context {S : Type} (P : Platform S).

Lemma Close_no_backups cv (w : World S) :
  range_ok P →
  SMBus.backupRegs cv = ∅ →
  SMBus.Close P (Some cv) w = File_Close P (SMBus.f cv) w.
Proof.
  intros Hrange Hempty. unfold SMBus.Close. cbn [deref].
  erewrite !bind_ok by reflexivity. rewrite Hempty.
  pose proof (Hrange ∅ (kstate w)) as Hperm.
  rewrite map_to_list_empty in Hperm. apply Permutation_nil_r in Hperm.
  rewrite Hperm. cbn [SMBus.Close_range deref].
  by erewrite bind_ok by reflexivity.
Qed.

Lemma Open_returns_conn bus a cv (w w1 : World S) :
  SMBus.Open P bus a w = (Ok (Some cv, None), w1) →
  SMBus.backupRegs cv = ∅ ∧ SMBus.force cv = false ∧ SMBus.backupaddr cv = a.
Proof.
  intros Hrun. unfold SMBus.Open in Hrun.
  destruct (os_OpenFile P (dev_path bus) O_RDWR perm0600 (kstate w))
    as [[file|err] s1] eqn:Hopen.
  2:{ rewrite (OpenWithOptions_open_failed P bus a _ err s1 w Hopen) in Hrun.
      discriminate Hrun. }
  destruct (decide ((sys_ioctl P (Fd file) (select_code false) (ArgInt a) s1).1.1 = 0))
    as [Hsel|Hsel].
  2:{ destruct (OpenWithOptions_select_failed P bus a
                  {| SMBus.Force := false; SMBus.BackupRestoreRegs := Some [] |}
                  file s1 w Hopen Hsel) as (evs & cerr & w2 & _ & _ & Hrun2).
      rewrite Hrun2 in Hrun. discriminate Hrun. }
  destruct (OpenWithOptions_backup P bus a false [] file s1 w Hopen Hsel)
    as (res & evs & w2 & Hout & Ht & Hrun2).
  rewrite Hrun in Hrun2. injection Hrun2 as <- <-.
  inversion Hout as [rvs evs' Hb Hregs Hcv Hevs|]; subst.
  apply fmap_nil_inv in Hregs. by subst rvs.
Qed.

Lemma OpenFile_returns_conn bus cv (w w1 : World S) :
  SMBus.OpenFile P bus w = (Ok (Some cv, None), w1) →
  SMBus.backupRegs cv = ∅ ∧ SMBus.force cv = false ∧ SMBus.backupaddr cv = 0.
Proof.
  unfold SMBus.OpenFile. rewrite OpenFileWithOptions_run.
  destruct (os_OpenFile P (dev_path bus) O_RDWR perm0600 (kstate w)).1;
    intros H; [|discriminate H].
  by injection H as <- _.
Qed.

End NoBackups.

(** X7. A connection that [Open] or [OpenFile] returned has nothing backed
    up, so its [Close], whenever it is called, issues exactly one call, the
    close of the file, and no ioctl: it never writes to the device.  What
    it returns is the result of that close. *)
Theorem close_of_plain_connection {S} (P : Platform S) bus a cv
  (w w1 w2 : World S) :
  range_ok P →
  SMBus.Open P bus a w = (Ok (Some cv, None), w1) ∨
  SMBus.OpenFile P bus w = (Ok (Some cv, None), w1) →
  SMBus.Close P (Some cv) w2 =
  (Ok (file_Close P (SMBus.f cv) (kstate w2)).1,
   {| kstate := (file_Close P (SMBus.f cv) (kstate w2)).2;
      trace := trace w2 ++
        [EvClose (SMBus.f cv) (file_Close P (SMBus.f cv) (kstate w2)).1] |}).
Proof.
  intros Hrange Hopen.
  assert (Hempty : SMBus.backupRegs cv = ∅).
  { destruct Hopen as [H|H].
    - by destruct (Open_returns_conn P bus a cv w w1 H).
    - by destruct (OpenFile_returns_conn P bus cv w w1 H). }
  rewrite Close_no_backups by done. apply File_Close_run.
Qed.

Lemma close_of_plain_connection_witness :
  range_ok (mock healthy) ∧
  (SMBus.Open (mock healthy) 1 0x50 world0 =
     (Ok (Some conn0, None),
      (SMBus.Open (mock healthy) 1 0x50 world0).2) ∨
   SMBus.OpenFile (mock healthy) 1 world0 =
     (Ok (Some conn0, None),
      (SMBus.Open (mock healthy) 1 0x50 world0).2)) ∧
  SMBus.Close (mock healthy) (Some conn0) world_scrambled =
    (Ok None,
     {| kstate := kstate world_scrambled;
        trace := [EvClose {| Fd := 3 |} None] |}).
Proof.
  assert (H : SMBus.Open (mock healthy) 1 0x50 world0 =
     (Ok (Some conn0, None), (SMBus.Open (mock healthy) 1 0x50 world0).2))
    by (vm_compute; reflexivity).
  split; [apply mock_range_ok|]. split; [by left|].
  exact (close_of_plain_connection (mock healthy) 1 0x50 conn0 world0 _
           world_scrambled (mock_range_ok healthy) (or_introl H)).
Defined.

(** X8. Opening without an address and then selecting one is opening with
    the address: when [OpenFileWithOptions] returns a connection and
    [SetAddr] on it succeeds, [OpenWithOptions] with the same options and
    that address returns the same connection and leaves the same world. *)
Theorem open_file_then_set_addr {S} (P : Platform S) bus a force cv
  (w w1 w2 : World S) :
  SMBus.OpenFileWithOptions P bus
    (Some {| SMBus.Force := force; SMBus.BackupRestoreRegs := None |}) w =
    (Ok (Some cv, None), w1) →
  SMBus.SetAddr P (Some cv) a w1 = (Ok None, w2) →
  SMBus.OpenWithOptions P bus a
    (Some {| SMBus.Force := force; SMBus.BackupRestoreRegs := None |}) w =
    (Ok (Some cv, None), w2).
Proof.
  intros Hopen Hset. unfold SMBus.OpenWithOptions.
  cbn [SMBus.Force SMBus.BackupRestoreRegs].
  rewrite (bind_ok _ _ _ _ _ Hopen). unfold SMBus.SetAddr in Hset.
  by rewrite (bind_ok _ _ _ _ _ Hset).
Qed.

Lemma open_file_then_set_addr_witness :
  SMBus.OpenFileWithOptions (mock healthy) 1
    (Some {| SMBus.Force := true; SMBus.BackupRestoreRegs := None |}) world0 =
    (Ok (Some conn_forced, None),
     {| kstate := ∅;
        trace := [EvOpen "/dev/i2c-1" O_RDWR perm0600 (inl {| Fd := 3 |})] |}) ∧
  SMBus.SetAddr (mock healthy) (Some conn_forced) 0x50
    {| kstate := ∅;
       trace := [EvOpen "/dev/i2c-1" O_RDWR perm0600 (inl {| Fd := 3 |})] |} =
    (Ok None,
     {| kstate := ∅;
        trace := [EvOpen "/dev/i2c-1" O_RDWR perm0600 (inl {| Fd := 3 |});
                  EvIoctl 3 0x0706 (ArgInt 0x50) 0 []] |}) ∧
  SMBus.OpenWithOptions (mock healthy) 1 0x50
    (Some {| SMBus.Force := true; SMBus.BackupRestoreRegs := None |}) world0 =
    (Ok (Some conn_forced, None),
     {| kstate := ∅;
        trace := [EvOpen "/dev/i2c-1" O_RDWR perm0600 (inl {| Fd := 3 |});
                  EvIoctl 3 0x0706 (ArgInt 0x50) 0 []] |}).
Proof.
  split; [reflexivity|]. split; [reflexivity|].
  exact (open_file_then_set_addr (mock healthy) 1 0x50 true conn_forced
           world0 _ _ eq_refl eq_refl).
Defined.

(** ** More on block transactions *)

Section Blocks.
Context {S : Type} (P : Platform S).

Lemma txn_nonempty fd force a cmd err mem evs :
  txn fd force a cmd err mem evs → evs ≠ [].
Proof. by destruct 1. Qed.

Lemma WriteBlockData_txn cv a reg buf (w : World S) :
  (length buf ≤ 32)%nat →
  ∃ err mem evs w',
    txn (Fd (SMBus.f cv)) (SMBus.force cv) a (write_block_cmd reg buf)
      err mem evs ∧
    trace w' = trace w ++ evs ∧
    SMBus.WriteBlockData P (Some cv) a reg buf w = (Ok err, w').
Proof.
  intros Hlen. rewrite WriteBlockData_transaction by done.
  by apply transaction_txn.
Qed.

Lemma ReadBlockData_txn cv a reg buf (w : World S) :
  (length buf ≤ 32)%nat →
  ∃ err mem evs w',
    txn (Fd (SMBus.f cv)) (SMBus.force cv) a
      (read_block_cmd reg (length buf)) err mem evs ∧
    trace w' = trace w ++ evs ∧
    SMBus.ReadBlockData P (Some cv) a reg buf w =
      (Ok (match err with
           | Some _ => buf
           | None => take (length buf) (drop 1 mem)
           end, err), w').
Proof.
  intros Hlen. rewrite ReadBlockData_transaction by done.
  destruct (transaction_txn P cv a (read_block_cmd reg (length buf))
              (λ e, (buf, Some e))
              (λ err m, match err with
                        | Some e => (buf, Some e)
                        | None => (take (length buf) (drop 1 m), None)
                        end) w (λ e, eq_refl))
    as (err & mem & evs & w' & Htxn & Ht & Hrun).
  exists err, mem, evs, w'. split_and!; [done..|].
  rewrite Hrun. by destruct err.
Qed.

Lemma trace_grew (t evs : list Event) : evs ≠ [] → t ++ evs ≠ t.
Proof.
  intros Hne Heq. apply Hne.
  apply (app_inv_head t). by rewrite app_nil_r.
Qed.

(** What the kernel stored after the length byte, cut or padded with
    zeros to [n] bytes. *)
Lemma scratch_payload (n : nat) (wb : list Z) :
  take n (drop 1 (copy (Z.of_nat n :: replicate n 0) wb)) =
  take n (drop 1 wb ++ replicate n 0).
Proof.
  unfold copy. cbn [length]. rewrite length_replicate.
  destruct wb as [|x wb'].
  - cbn [length drop app take]. by rewrite drop_0, take_take, Nat.min_id.
  - cbn [length drop app take]. rewrite drop_0, take_take, Nat.min_id.
    rewrite drop_replicate, !take_app, !take_replicate, !drop_0.
    do 2 f_equal. lia.
Qed.

End Blocks.

(** X9. For a buffer of at most 32 bytes, [WriteBlockData] and
    [ReadBlockData] are each exactly one transaction [one cmd] on the
    platform, with the block command of the method.  The address-select
    ioctl is put to [sys_ioctl] in the state the method starts in; when
    its errno is not 0 that errno is the error returned, the select is the
    only event and nothing is transferred; when it is 0, one transfer
    ioctl is put to [sys_ioctl] in the state the select left, and its
    errno decides the error.  Whenever [ReadBlockData] returns an error
    the buffer it hands back is the buffer it was given. *)
Theorem block_ops_select_then_transfer {S} (P : Platform S) cv a reg
  (buf : list Z) (w : World S) :
  (length buf ≤ 32)%nat →
  let fd := Fd (SMBus.f cv) in
  let force := SMBus.force cv in
  let sel := sys_ioctl P fd (select_code force) (ArgInt a) (kstate w) in
  let one (cmd : i2cCmd) := txn_run P fd force a cmd (kstate w) in
  (∀ cmd,
     one cmd =
     if decide (sel.1.1 = 0) then
       let tr := sys_ioctl P fd 0x0720 (ArgPtr cmd) sel.2 in
       {| run_result := (errno_error tr.1.1, copy (ptr cmd) tr.1.2);
          run_events :=
            [EvIoctl fd (select_code force) (ArgInt a) 0 [];
             EvIoctl fd 0x0720 (ArgPtr cmd) tr.1.1 (copy (ptr cmd) tr.1.2)];
          run_state := tr.2 |}
     else
       {| run_result := (Some (Errno sel.1.1), ptr cmd);
          run_events := [EvIoctl fd (select_code force) (ArgInt a) sel.1.1 []];
          run_state := sel.2 |}) ∧
  SMBus.WriteBlockData P (Some cv) a reg buf w =
    played w (run_map fst (one (write_block_cmd reg buf))) ∧
  SMBus.ReadBlockData P (Some cv) a reg buf w =
    played w
      (run_map (λ r, (match r.1 with
                      | Some _ => buf
                      | None => take (length buf) (drop 1 r.2)
                      end, r.1))
         (one (read_block_cmd reg (length buf)))).
Proof.
  intros Hlen fd force sel one. split_and!.
  - reflexivity.
  - by rewrite WriteBlockData_transaction, transaction_runs.
  - rewrite ReadBlockData_transaction, transaction_runs by done.
    unfold played, run_map. cbn [run_result run_events run_state].
    by destruct (run_result _).1.
Qed.

Lemma block_ops_select_then_transfer_witness :
  (length (replicate 32 7) ≤ 32)%nat ∧
  SMBus.WriteBlockData (mock busy) (Some conn0) 0x50 0x20 (replicate 32 7)
    world0 =
    (Ok (Some (Errno EBUSY)),
     {| kstate := ∅; trace := [EvIoctl 3 0x0703 (ArgInt 0x50) EBUSY []] |}) ∧
  SMBus.WriteBlockData (mock healthy) (Some conn0) 0x50 0x20 (replicate 32 7)
    world0 =
    (Ok None,
     {| kstate := {[ 0x20 := 32 :: replicate 32 7 ]};
        trace :=
          [EvIoctl 3 0x0703 (ArgInt 0x50) 0 [];
           EvIoctl 3 0x0720 (ArgPtr (write_block_cmd 0x20 (replicate 32 7))) 0
             (32 :: replicate 32 7)] |}).
Proof.
  split; [vm_compute; lia|]. split.
  - exact (proj1 (proj2 (block_ops_select_then_transfer (mock busy) conn0
                           0x50 0x20 (replicate 32 7) world0
                           ltac:(vm_compute; lia)))).
  - exact (proj1 (proj2 (block_ops_select_then_transfer (mock healthy) conn0
                           0x50 0x20 (replicate 32 7) world0
                           ltac:(vm_compute; lia)))).
Defined.

(** X10. Called on a connection, a block method leaves the trace as it
    was exactly when the buffer is longer than 32 bytes, and then leaves
    the state as it was too.  A buffer of 32 bytes or fewer, the empty one
    included, always reaches the bus: the first event added is the
    address-select ioctl, carrying the errno that [sys_ioctl] returned for
    it in the state the method started in, and the state afterwards is
    that of the one transaction put to the platform. *)
Theorem block_io_iff_fits {S} (P : Platform S) cv a reg (buf : list Z)
  (w : World S) :
  let fd := Fd (SMBus.f cv) in
  let force := SMBus.force cv in
  let sel := sys_ioctl P fd (select_code force) (ArgInt a) (kstate w) in
  let wr := (SMBus.WriteBlockData P (Some cv) a reg buf w).2 in
  let rd := (SMBus.ReadBlockData P (Some cv) a reg buf w).2 in
  (trace wr = trace w ↔ (32 < length buf)%nat) ∧
  (trace rd = trace w ↔ (32 < length buf)%nat) ∧
  ∃ rest_wr rest_rd,
    trace wr = trace w ++
      (if decide (32 < length buf)%nat then []
       else EvIoctl fd (select_code force) (ArgInt a) sel.1.1 [] :: rest_wr) ∧
    trace rd = trace w ++
      (if decide (32 < length buf)%nat then []
       else EvIoctl fd (select_code force) (ArgInt a) sel.1.1 [] :: rest_rd) ∧
    kstate wr =
      (if decide (32 < length buf)%nat then kstate w
       else run_state (txn_run P fd force a (write_block_cmd reg buf)
                         (kstate w))) ∧
    kstate rd =
      (if decide (32 < length buf)%nat then kstate w
       else run_state (txn_run P fd force a
                         (read_block_cmd reg (length buf)) (kstate w))).
Proof.
  intros fd force sel wr rd.
  assert (Hfirst : ∀ cmd, ∃ rest,
    run_events (txn_run P fd force a cmd (kstate w)) =
    EvIoctl fd (select_code force) (ArgInt a) sel.1.1 [] :: rest).
  { intros cmd. unfold txn_run. fold sel. case_decide as H; cbn [run_events].
    - eexists. unfold select_event. by rewrite H.
    - by eexists. }
  destruct (decide (32 < length buf)%nat) as [Hbig|Hfits].
  - assert (Hwr : wr = w).
    { unfold wr, SMBus.WriteBlockData.
      by rewrite decide_True by (unfold i2cSMBusBlockMax; lia). }
    assert (Hrd : rd = w).
    { unfold rd, SMBus.ReadBlockData.
      by rewrite decide_True by (unfold i2cSMBusBlockMax; lia). }
    rewrite Hwr, Hrd. split_and!; [done|done|].
    exists [], []. by rewrite app_nil_r.
  - assert (Hlen : (length buf ≤ 32)%nat) by lia.
    assert (Hwr : wr = {| kstate := run_state (txn_run P fd force a
                                      (write_block_cmd reg buf) (kstate w));
                          trace := trace w ++ run_events (txn_run P fd force a
                                      (write_block_cmd reg buf) (kstate w)) |}).
    { unfold wr. by rewrite WriteBlockData_transaction, transaction_runs. }
    assert (Hrd : rd = {| kstate := run_state (txn_run P fd force a
                                      (read_block_cmd reg (length buf)) (kstate w));
                          trace := trace w ++ run_events (txn_run P fd force a
                                      (read_block_cmd reg (length buf)) (kstate w)) |}).
    { unfold rd. by rewrite ReadBlockData_transaction, transaction_runs. }
    destruct (Hfirst (write_block_cmd reg buf)) as [rest_wr Hew].
    destruct (Hfirst (read_block_cmd reg (length buf))) as [rest_rd Her].
    rewrite Hwr, Hrd. cbn [trace kstate]. rewrite Hew, Her. split_and!.
    + split; [|done]. intros Ht. by apply trace_grew in Ht.
    + split; [|done]. intros Ht. by apply trace_grew in Ht.
    + by exists rest_wr, rest_rd.
Qed.

(** X11. [ReadBlockData] never changes the length of the caller's buffer,
    and when it returns an error, whichever it is, the contents are
    unchanged too. *)
Theorem read_block_keeps_buffer {S} (P : Platform S) c a reg
  (buf buf' : list Z) err (w w' : World S) :
  SMBus.ReadBlockData P c a reg buf w = (Ok (buf', err), w') →
  length buf' = length buf ∧ (err ≠ None → buf' = buf).
Proof.
  intros Hrun. destruct (decide (length buf ≤ 32)%nat) as [Hlen|Hlen].
  - destruct c as [cv|].
    + destruct (ReadBlockData_txn P cv a reg buf w Hlen)
        as (err0 & mem & evs & w0 & Htxn & _ & Hrun0).
      rewrite Hrun0 in Hrun. injection Hrun as <- <- <-.
      destruct err0 as [e|]; [done|]. split; [|done].
      assert (Hmem : length mem = (length buf + 1)%nat).
      { inversion Htxn as [|e mem' Hl He]; subst.
        rewrite Hl. cbn. rewrite length_replicate. lia. }
      rewrite length_take, length_drop. lia.
    + rewrite ReadBlockData_transaction in Hrun by done. discriminate Hrun.
  - unfold SMBus.ReadBlockData in Hrun.
    rewrite decide_True in Hrun by (unfold i2cSMBusBlockMax; lia).
    by injection Hrun as <- <- <-.
Qed.

Lemma read_block_keeps_buffer_witness :
  SMBus.ReadBlockData (mock busy) (Some conn0) 0x50 0x20 [1; 2; 3] world0 =
    (Ok ([1; 2; 3], Some (Errno EBUSY)),
     {| kstate := ∅; trace := [select_event 3 false 0x50 EBUSY] |}) ∧
  length [1; 2; 3] = length [1; 2; 3] ∧
  (Some (Errno EBUSY) ≠ None → [1; 2; 3] = [1; 2; 3]).
Proof.
  split; [reflexivity|].
  exact (read_block_keeps_buffer (mock busy) (Some conn0) 0x50 0x20
           [1; 2; 3] [1; 2; 3] (Some (Errno EBUSY)) world0 _ eq_refl).
Defined.

(** X12. When [ReadBlockData] succeeds nothing of the old contents of the
    buffer survives: the buffer holds the bytes that the kernel stored
    behind the length byte, cut to [len(buf)] bytes, and zeros where the
    kernel stored fewer. *)
Theorem read_block_overwrites_buffer {S} (P : Platform S) cv a reg
  (buf : list Z) (w : World S) :
  let fd := Fd (SMBus.f cv) in
  let sel := sys_ioctl P fd (select_code (SMBus.force cv)) (ArgInt a) (kstate w) in
  let rd := sys_ioctl P fd i2cSMBus
              (ArgPtr (read_block_cmd reg (length buf))) sel.2 in
  (length buf ≤ 32)%nat →
  sel.1.1 = 0 →
  rd.1.1 = 0 →
  (SMBus.ReadBlockData P (Some cv) a reg buf w).1 =
  Ok (take (length buf) (drop 1 rd.1.2 ++ replicate (length buf) 0), None).
Proof.
  intros fd sel rd Hlen Hsel Hrd.
  rewrite ReadBlockData_transaction by done. rewrite transaction_run.
  fold fd. fold sel. rewrite decide_True by done. fold rd.
  rewrite Hrd, errno_error_0. cbn [fst]. do 2 f_equal.
  apply scratch_payload.
Qed.

Lemma read_block_overwrites_buffer_witness :
  (length [9; 9; 9; 9] ≤ 32)%nat ∧
  (sys_ioctl (mock healthy) 3 (select_code false) (ArgInt 0x50)
     (kstate world_short)).1.1 = 0 ∧
  (sys_ioctl (mock healthy) 3 i2cSMBus (ArgPtr (read_block_cmd 0x20 4))
     (kstate world_short)).1.1 = 0 ∧
  (SMBus.ReadBlockData (mock healthy) (Some conn0) 0x50 0x20 [9; 9; 9; 9]
     world_short).1 = Ok ([5; 6; 0; 0], None).
Proof.
  split; [vm_compute; lia|]. split; [reflexivity|]. split; [reflexivity|].
  apply (read_block_overwrites_buffer (mock healthy) conn0 0x50 0x20
           [9; 9; 9; 9] world_short).
  - vm_compute; lia.
  - reflexivity.
  - reflexivity.
Defined.

(** ** Raw reads and writes *)

(** X13. [WriteByte(b)] is [Write] of the one-byte buffer holding [b].
    [Write] and [Read] issue exactly one call each, the write or the read
    on the file of the connection, and return what it returned; neither
    selects an address or issues any other ioctl, and [Read] leaves the
    length of its buffer as it was. *)
Theorem raw_io_single_call {S} (P : Platform S) cv b (buf p : list Z)
  (w : World S) :
  let wr := file_Write P (SMBus.f cv) buf (kstate w) in
  let rd := file_Read P (SMBus.f cv) (length p) (kstate w) in
  SMBus.WriteByte P (Some cv) b w = SMBus.Write P (Some cv) [b] w ∧
  SMBus.Write P (Some cv) buf w =
    (Ok wr.1,
     {| kstate := wr.2;
        trace := trace w ++ [EvWrite (SMBus.f cv) buf wr.1.1 wr.1.2] |}) ∧
  SMBus.Read P (Some cv) p w =
    (Ok (copy p rd.1.1.1, rd.1.1.2, rd.1.2),
     {| kstate := rd.2;
        trace := trace w ++ [EvRead (SMBus.f cv) (length p) rd.1.1.2 rd.1.2] |}) ∧
  length (copy p rd.1.1.1) = length p.
Proof.
  intros wr rd. split_and!.
  - reflexivity.
  - unfold SMBus.Write. cbn [deref]. erewrite bind_ok by reflexivity.
    unfold File_Write, call. fold wr. by destruct wr as [[n e] s'].
  - unfold SMBus.Read. cbn [deref]. erewrite bind_ok by reflexivity.
    unfold File_Read, call, bind. fold rd. by destruct rd as [[[got n] e] s'].
  - apply length_copy.
Qed.

(** ** Handles *)

Section Handles.
Context {S : Type} (P : Platform S).

Lemma transaction_keeps_handles {A} cv a cmd (failed : error → A) k
  (w : World S) :
  open_handles (trace (transaction P (Some cv) a cmd failed k w).2) =
  open_handles (trace w).
Proof.
  rewrite transaction_run. cbv zeta.
  case_decide; cbn [snd trace]; by rewrite open_handles_app.
Qed.

End Handles.

(** X14. No method but [Close] opens or releases a handle: after a
    register, word or block transaction, [SetAddr], [Write], [WriteByte]
    or [Read] on a connection, the open handles are those open before.
    [Close] on a connection releases the file of the connection whether
    the restore writes before it succeed or not: after the restore
    ioctls it calls the platform's [file_Close] on that file, in the state
    the restore left; that close is its last event, its result is what
    [Close] returns, the state afterwards is the one it left, and one
    occurrence of the file is gone from the open handles. *)
Theorem handle_accounting {S} (P : Platform S) cv a reg v b (buf : list Z)
  (w : World S) :
  let same {A} (m : Go S A) :=
    open_handles (trace (m w).2) = open_handles (trace w) in
  let r := restore_run P (Fd (SMBus.f cv)) (SMBus.force cv)
             (SMBus.backupaddr cv)
             (map_range P (SMBus.backupRegs cv) (kstate w)) (kstate w) in
  let cl := file_Close P (SMBus.f cv) (run_state r) in
  (same (SMBus.ReadReg P (Some cv) a reg) ∧
   same (SMBus.WriteReg P (Some cv) a reg v) ∧
   same (SMBus.ReadWord P (Some cv) a reg) ∧
   same (SMBus.WriteWord P (Some cv) a reg v) ∧
   same (SMBus.ReadBlockData P (Some cv) a reg buf) ∧
   same (SMBus.WriteBlockData P (Some cv) a reg buf) ∧
   same (SMBus.SetAddr P (Some cv) a) ∧
   same (SMBus.Write P (Some cv) buf) ∧
   same (SMBus.WriteByte P (Some cv) b) ∧
   same (SMBus.Read P (Some cv) buf)) ∧
  SMBus.Close P (Some cv) w =
    (Ok cl.1,
     {| kstate := cl.2;
        trace := trace w ++ run_events r ++ [EvClose (SMBus.f cv) cl.1] |}) ∧
  Forall (λ ev, is_ioctl ev = true) (run_events r) ∧
  open_handles (trace (SMBus.Close P (Some cv) w).2) =
    remove_first (SMBus.f cv) (open_handles (trace w)).
Proof.
  intros same r cl. unfold same. split; [split_and!|].
  - rewrite ReadReg_transaction. apply transaction_keeps_handles.
  - rewrite WriteReg_transaction. apply transaction_keeps_handles.
  - rewrite ReadWord_transaction. apply transaction_keeps_handles.
  - rewrite WriteWord_transaction. apply transaction_keeps_handles.
  - destruct (decide (length buf ≤ 32)%nat) as [Hlen|Hlen].
    + rewrite ReadBlockData_transaction by done.
      apply transaction_keeps_handles.
    + unfold SMBus.ReadBlockData.
      by rewrite decide_True by (unfold i2cSMBusBlockMax; lia).
  - destruct (decide (length buf ≤ 32)%nat) as [Hlen|Hlen].
    + rewrite WriteBlockData_transaction by done.
      apply transaction_keeps_handles.
    + unfold SMBus.WriteBlockData.
      by rewrite decide_True by (unfold i2cSMBusBlockMax; lia).
  - unfold SMBus.SetAddr. rewrite addr_run. cbn [snd trace].
    by rewrite open_handles_app.
  - unfold SMBus.Write. cbn [deref]. erewrite bind_ok by reflexivity.
    unfold File_Write, call.
    destruct (file_Write P (SMBus.f cv) buf (kstate w)) as [[n e] s'].
    cbn [snd trace]. by rewrite open_handles_app.
  - change (SMBus.WriteByte P (Some cv) b w) with (SMBus.Write P (Some cv) [b] w).
    unfold SMBus.Write. cbn [deref]. erewrite bind_ok by reflexivity.
    unfold File_Write, call.
    destruct (file_Write P (SMBus.f cv) [b] (kstate w)) as [[n e] s'].
    cbn [snd trace]. by rewrite open_handles_app.
  - unfold SMBus.Read. cbn [deref]. erewrite bind_ok by reflexivity.
    unfold File_Read, call, bind.
    destruct (file_Read P (SMBus.f cv) (length buf) (kstate w))
      as [[[got n] e] s'].
    cbn [snd trace ret fst]. by rewrite open_handles_app.
  - assert (Hio : Forall (λ ev, is_ioctl ev = true) (run_events r))
      by apply restore_run_ioctls.
    assert (Hrun : SMBus.Close P (Some cv) w =
      (Ok cl.1,
       {| kstate := cl.2;
          trace := trace w ++ run_events r ++ [EvClose (SMBus.f cv) cl.1] |}))
      by apply Close_runs.
    split_and!; [done|done|].
    rewrite Hrun. cbn [snd trace]. rewrite app_assoc, open_handles_app.
    cbn [foldl handle_step]. f_equal. by apply open_handles_ioctls.
Qed.

(** ** The legacy package, method by method *)

(** X15. The register and word methods and the raw reads and writes of the
    legacy package are the same computations as those of the package with
    options on the connection that holds the same file, does not force and
    has nothing backed up: same calls in the same order, same results, and
    the same panic on a nil connection. *)
Theorem legacy_methods_agree {S} (P : Platform S) ba c a reg v b
  (buf : list Z) :
  Legacy.ReadReg P c a reg = SMBus.ReadReg P (upgrade ba <$> c) a reg ∧
  Legacy.WriteReg P c a reg v = SMBus.WriteReg P (upgrade ba <$> c) a reg v ∧
  Legacy.ReadWord P c a reg = SMBus.ReadWord P (upgrade ba <$> c) a reg ∧
  Legacy.WriteWord P c a reg v = SMBus.WriteWord P (upgrade ba <$> c) a reg v ∧
  Legacy.Write P c buf = SMBus.Write P (upgrade ba <$> c) buf ∧
  Legacy.WriteByte P c b = SMBus.WriteByte P (upgrade ba <$> c) b ∧
  Legacy.Read P c buf = SMBus.Read P (upgrade ba <$> c) buf.
Proof. by destruct c. Qed.

(** X16. Where [range] over the empty map visits nothing, the legacy
    [Close] is the [Close] of the package with options on the
    corresponding connection; and on a world where the file cannot be
    opened or the address can be selected, the legacy [Open] and the
    [Open] of the package with options issue the same calls, leave the
    same world and return corresponding results. *)
Theorem legacy_open_close_agree {S} (P : Platform S) bus a c (w w2 : World S) :
  range_ok P →
  (∀ file s1,
     os_OpenFile P (dev_path bus) O_RDWR perm0600 (kstate w) = (inl file, s1) →
     (sys_ioctl P (Fd file) i2cSlave (ArgInt a) s1).1.1 = 0) →
  SMBus.Open P bus a w =
    match Legacy.Open P bus a w with
    | (Ok (c', err), w') => (Ok (upgrade a <$> c', err), w')
    | (Panic msg, w') => (Panic msg, w')
    end ∧
  Legacy.Close P c w2 = SMBus.Close P (upgrade a <$> c) w2.
Proof.
  intros Hrange Hsel. split.
  - by apply legacy_Open_same.
  - by apply legacy_Close_same.
Qed.

Lemma legacy_open_close_agree_witness :
  range_ok (mock healthy) ∧
  (∀ file s1,
     os_OpenFile (mock healthy) (dev_path 1) O_RDWR perm0600 (kstate world0) =
       (inl file, s1) →
     (sys_ioctl (mock healthy) (Fd file) i2cSlave (ArgInt 0x50) s1).1.1 = 0) ∧
  SMBus.Open (mock healthy) 1 0x50 world0 =
    match Legacy.Open (mock healthy) 1 0x50 world0 with
    | (Ok (c', err), w') => (Ok (upgrade 0x50 <$> c', err), w')
    | (Panic msg, w') => (Panic msg, w')
    end ∧
  Legacy.Close (mock healthy) (Some {| Legacy.f := {| Fd := 3 |} |}) world0 =
    SMBus.Close (mock healthy) (Some conn0) world0.
Proof.
  assert (H2 : ∀ file s1,
     os_OpenFile (mock healthy) (dev_path 1) O_RDWR perm0600 (kstate world0) =
       (inl file, s1) →
     (sys_ioctl (mock healthy) (Fd file) i2cSlave (ArgInt 0x50) s1).1.1 = 0)
    by reflexivity.
  split; [apply mock_range_ok|]. split; [exact H2|].
  exact (legacy_open_close_agree (mock healthy) 1 0x50
           (Some {| Legacy.f := {| Fd := 3 |} |}) world0 world0
           (mock_range_ok healthy) H2).
Defined.
